(** * cl: running capslock over the imports of a module

    A shallow embedding of [main.go].  The program is orchestration glue
    around external collaborators (the [go] tool, the package loader, the
    [capslock] analyzer, the file system).  Their answers are collected in a
    record [World]; what the program does to them is recorded as a list of
    [event]s, in the order the source performs them. *)

From Stdlib Require Import ZArith String List Ascii.
From stdpp Require Import gmap strings list fin_maps sorting.

Open Scope string_scope.
Open Scope list_scope.
Open Scope Z_scope.

(** ** Exit status codes (main.go, lines 21-27)

    The [const] block uses [iota]: [success] sits at index 0 with an explicit
    value, the three error codes at indices 1, 2, 3 repeat the expression
    [1 << (iota - 1)]. *)

Definition success : Z := 0.
Definition internalError : Z := Z.shiftl 1 (1 - 1).
Definition invocationError : Z := Z.shiftl 1 (2 - 1).
Definition capChangeError : Z := Z.shiftl 1 (3 - 1).

(** ** Data *)

(** A Go [error] value is represented by its message; [nil] is [None]. *)
Definition error := string.

(** The line terminator written by [fmt.Println] and [fmt.Fprintln]. *)
Definition nl : string := String "010"%char EmptyString.

(** [regexp.Regexp]: a compiled expression remembers its source text. *)
Record Regexp := { expr : string }.

(** [packages.Module] and [packages.Package], restricted to the fields the
    program reads.  [pkg_Module] is a pointer in the source and may be nil;
    [pkg_Imports] is a map of which only the keys are used. *)
Record packages_Module := { mod_Path : string }.

Record packages_Package := {
  pkg_ID : string;
  pkg_Imports : gset string;
  pkg_Module : option packages_Module
}.

(** The [String] method of a package returns its ID. *)
Definition pkg_String (p : packages_Package) : string := pkg_ID p.

Record packages_Config := {
  cfg_Tests : bool;
  cfg_Mode : Z;
  cfg_Env : list string
}.

(** What [cmd.Run] leaves behind: the error (nil on exit status zero) and
    the two captured streams. *)
Record CmdResult := {
  cmd_err : option error;
  cmd_stdout : string;
  cmd_stderr : string
}.

(** ** The outside world

    Library functions whose code is not part of this repository and the
    answers of the operating system and of external processes.  An answer is
    a function of the arguments of the call.  [range_order] is the order in
    which a [range] loop visits the keys of a map. *)
Record World := {
  runtime_GOOS : string;
  runtime_GOARCH : string;
  os_DevNull : string;
  os_Environ : list string;
  packages_NeedImports : Z;
  packages_NeedModule : Z;
  strings_TrimSpace : string -> string;
  filepath_Dir : string -> string;
  filepath_Join : string -> string -> string;
  regexp_Compile : string -> Regexp + error;
  regexp_MatchString : Regexp -> string -> bool;
  cmd_Run : string -> list string -> option (list string) -> CmdResult;
  os_Getwd : string + error;
  packages_Load : packages_Config -> string -> list packages_Package + error;
  packages_PrintErrors : list packages_Package -> list string;
  os_WriteFile : string -> string -> Z -> option error;
  range_order : list string -> list string
}.

(** A [range] loop visits every key exactly once. *)
Definition range_ok (w : World) : Prop :=
  forall l : list string, range_order w l ≡ₚ l.

(** ** Effects

    Everything the program does to the outside, in program order. *)
Inductive event :=
| Exec (name : string) (args : list string) (env : option (list string))
| GetwdCall
| LoadCall (cfg : packages_Config) (pattern : string)
| WriteFileCall (path data : string) (perm : Z)
| Stdout (s : string)
| Stderr (s : string).

(** A computation either yields a value, leaves through a [return] that
    reaches [os.Exit] (both [analyse] and [Main] hand their result to
    [os.Exit] unchanged), or panics. *)
Inductive result (A : Type) :=
| Val (a : A)
| Exit (code : Z)
| Panic.
Arguments Val {A} a.
Arguments Exit {A} code.
Arguments Panic {A}.

Definition M (A : Type) : Type := list event * result A.

Definition ret {A} (a : A) : M A := ([], Val a).
Definition emit (e : event) : M unit := ([e], Val tt).
Definition exit {A} (code : Z) : M A := ([], Exit code).
Definition panic {A} : M A := ([], Panic).

Definition bind {A B} (m : M A) (f : A -> M B) : M B :=
  match m with
  | (evs, Val a) => let '(evs', r) := f a in (evs ++ evs', r)
  | (evs, Exit c) => (evs, Exit c)
  | (evs, Panic) => (evs, Panic)
  end.

Declare Scope run_scope.
Delimit Scope run_scope with run.
Notation "x <- m ;; k" := (bind m (fun x => k))
  (at level 100, m at next level, right associativity) : run_scope.
Notation "'let*' p := m 'in' k" := (bind m (fun x => match x with p => k end))
  (at level 10, p pattern, m at level 100, k at level 200) : run_scope.
Notation "m ;;; k" := (bind m (fun _ => k))
  (at level 100, right associativity) : run_scope.
Open Scope run_scope.

(** [fmt.Println] on standard output and [fmt.Fprintln(os.Stderr, ...)]. *)
Definition Println (s : string) : M unit := emit (Stdout (s +:+ nl)).
Definition Print (s : string) : M unit := emit (Stdout s).
Definition Eprintln (s : string) : M unit := emit (Stderr (s +:+ nl)).

(** Projections of a trace. *)
Fixpoint stdout_of (evs : list event) : string :=
  match evs with
  | [] => ""
  | Stdout s :: evs' => s +:+ stdout_of evs'
  | _ :: evs' => stdout_of evs'
  end.

Definition is_baseline_event (e : event) : bool :=
  match e with
  | Exec name _ _ => String.eqb name "capslock"
  | WriteFileCall _ _ _ => true
  | _ => false
  end.

(** The events of the resolution phase: runs of the [go] tool, the query for
    the working directory, the package load, diagnostics. *)
Definition resolution_event (e : event) : Prop :=
  match e with
  | Exec name _ _ => name = "go"
  | GetwdCall | LoadCall _ _ | Stderr _ => True
  | WriteFileCall _ _ _ | Stdout _ => False
  end.

(** ** Library functions modelled directly *)

(** [strings.HasPrefix(s, prefix)]. *)
Definition strings_HasPrefix (s pre : string) : bool := String.prefix pre s.

(** [strings.Join(elems, sep)]. *)
Definition strings_Join (elems : list string) (sep : string) : string :=
  String.concat sep elems.

(** [strings.Cut(s, sep)]: split around the first instance of [sep]. *)
Definition strings_Cut (s sep : string) : string * string * bool :=
  match String.index 0 sep s with
  | Some i =>
      (String.substring 0 i s,
       String.substring (i + String.length sep)
                        (String.length s - (i + String.length sep)) s,
       true)
  | None => (s, "", false)
  end.

(** [sort.Strings]: increasing byte-wise order. *)
Definition sort_Strings (l : list string) : list string :=
  merge_sort String.le l.

(** A pointer to a [bytes.Buffer]; the nil pointer is [None]. *)
Definition Buffer := option string.

Definition Buffer_String (b : Buffer) : string :=
  match b with Some s => s | None => "<nil>" end.

Definition Buffer_Len (b : Buffer) : M Z :=
  match b with
  | Some s => ret (Z.of_nat (String.length s))
  | None => panic
  end.

(** ** [set] (main.go, lines 64-90) *)

Definition set_Set (s : gmap string bool) (v : string) : gmap string bool :=
  <[v := true]> s.

Definition set_String (s : gmap string bool) : string :=
  strings_Join (sort_Strings (elements (dom s))) ",".

Fixpoint regexps_loop (w : World) (ps : list string) (re : list Regexp)
  : list Regexp * option error :=
  match ps with
  | [] => (re, None)
  | p :: ps' =>
      match regexp_Compile w p with
      | inr err => ([], Some err)
      | inl r => regexps_loop w ps' (re ++ [r])
      end
  end.

Definition set_regexps (w : World) (s : gmap string bool)
  : list Regexp * option error :=
  regexps_loop w (range_order w (elements (dom s))) [].

(** ** [matchers.match] (main.go, lines 92-101) *)

Fixpoint matchers_match (w : World) (m : list Regexp) (s : string) : bool :=
  match m with
  | [] => false
  | re :: m' =>
      if regexp_MatchString w re s then true else matchers_match w m' s
  end.

(** ** [moduleRoot] (main.go, lines 206-223) *)

Definition moduleRoot (w : World) : M (string * bool * option error) :=
  emit (Exec "go" ["env"; "GOMOD"] None) ;;;
  let r := cmd_Run w "go" ["env"; "GOMOD"] None in
  match cmd_err r with
  | Some err =>
      ret ("", false, Some ("go env " +:+ err +:+ ": " +:+ cmd_stderr r))
  | None =>
      let gomod := strings_TrimSpace w (cmd_stdout r) in
      if String.eqb gomod "" then
        ret ("", true, Some "go tool not running in module mode")
      else if String.eqb gomod (os_DevNull w) then
        ret ("", true, Some "no go.mod")
      else ret (filepath_Dir w gomod, true, None)
  end.

(** ** [isStdlib] (main.go, lines 226-244) *)

Definition go_env (w : World) (goos goarch : string) : list string :=
  os_Environ w ++ ["GOOS=" +:+ goos; "GOARCH=" +:+ goarch].

Definition isStdlib (w : World) (p goos goarch : string)
  : M (bool * option error) :=
  let args := ["list"; "-f={{.Standard}}"; p] in
  let env := Some (go_env w goos goarch) in
  emit (Exec "go" args env) ;;;
  let r := cmd_Run w "go" args env in
  match cmd_err r with
  | Some err =>
      let '(note, _, ok) := strings_Cut (cmd_stderr r) ";" in
      if ok then ret (false, Some ("go list " +:+ err +:+ ": " +:+ note))
      else ret (false, Some ("go list " +:+ err +:+ ": " +:+ cmd_stderr r))
  | None =>
      ret (String.eqb (strings_TrimSpace w (cmd_stdout r)) "true", None)
  end.

(** ** [capslock] (main.go, lines 250-273) *)

Definition capslock_args (goos goarch : string) (pkgs : list string)
    (format path custom : string) (noBuiltin : bool) : list string :=
  let args := ["-goos"; goos; "-goarch"; goarch; "-output"; format;
               "-packages"; strings_Join pkgs ","] in
  let args := if String.eqb format "compare" then args ++ [path] else args in
  if negb (String.eqb custom "") then
    let args := args ++ ["capability_map"; custom] in
    if noBuiltin then args ++ ["disable_builtin"] else args
  else args.

Definition capslock (w : World) (goos goarch : string) (pkgs : list string)
    (format path custom : string) (noBuiltin : bool)
  : M (Buffer * option error) :=
  let args := capslock_args goos goarch pkgs format path custom noBuiltin in
  emit (Exec "capslock" args None) ;;;
  let r := cmd_Run w "capslock" args None in
  match cmd_err r with
  | Some err =>
      ret (None, Some ("capslock: " +:+ err +:+ ": " +:+ cmd_stderr r))
  | None =>
      if negb (String.eqb format "compare") then
        emit (WriteFileCall path (cmd_stdout r) 436) ;;;
        ret (Some (cmd_stdout r), os_WriteFile w path (cmd_stdout r) 436)
      else ret (Some (cmd_stdout r), None)
  end.

(** ** [analyse] (main.go, lines 103-201)

    The body is given block by block, in source order. *)

(** Lines 104-123: the root directory.  [moduleRoot] is called first,
    whatever the value of [module]. *)
Definition analyse_root (w : World) (module : bool) : M string :=
  let* (root, valid, err) := moduleRoot w in
  match err with
  | Some e =>
      Eprintln e ;;;
      if valid : bool then exit invocationError else exit internalError
  | None =>
      let* (root, err) :=
        (if negb module then
           emit GetwdCall ;;;
           match os_Getwd w with
           | inr e => Eprintln e ;;; exit internalError
           | inl cwd => ret (cwd, @None error)
           end
         else ret (root, err)) in
      match err with
      | Some e => Eprintln e ;;; exit internalError
      | None => ret root
      end
  end.

(** [packages.PrintErrors]: one line per error on standard error, and the
    number of errors. *)
Definition PrintErrors (w : World) (pkgs : list packages_Package) : M Z :=
  let errs := packages_PrintErrors w pkgs in
  (fix go (l : list string) : M unit :=
     match l with
     | [] => ret tt
     | e :: l' => Eprintln e ;;; go l'
     end) errs ;;;
  ret (Z.of_nat (length errs)).

(** Lines 125-140: loading the packages below the root. *)
Definition analyse_load (w : World) (goos goarch root : string)
  : M (list packages_Package) :=
  let cfg := {| cfg_Tests := false;
                cfg_Mode := Z.lor (packages_NeedImports w) (packages_NeedModule w);
                cfg_Env := go_env w goos goarch |} in
  let pattern := filepath_Join w root "..." in
  emit (LoadCall cfg pattern) ;;;
  match packages_Load w cfg pattern with
  | inr e => emit (Stderr ("load: " +:+ e +:+ nl)) ;;; exit internalError
  | inl pkgs =>
      n <- PrintErrors w pkgs ;;
      if negb (n =? 0) then exit internalError else ret pkgs
  end.

(** Lines 144-152: the imports of one package. *)
Fixpoint collect_pkg (w : World) (ignore : list Regexp)
    (pkg : packages_Package) (keys : list string)
    (imps : gmap string (list string)) : M (gmap string (list string)) :=
  match keys with
  | [] => ret imps
  | imp :: keys' =>
      match pkg_Module pkg with
      | None => panic
      | Some m =>
          if strings_HasPrefix imp (mod_Path m) then
            collect_pkg w ignore pkg keys' imps
          else if matchers_match w ignore imp then
            collect_pkg w ignore pkg keys' imps
          else
            collect_pkg w ignore pkg keys'
              (<[imp := default [] (imps !! imp) ++ [pkg_String pkg]]> imps)
      end
  end.

(** Lines 142-153: the imports of all packages, with their importers. *)
Fixpoint collect_pkgs (w : World) (ignore : list Regexp)
    (pkgs : list packages_Package) (imps : gmap string (list string))
  : M (gmap string (list string)) :=
  match pkgs with
  | [] => ret imps
  | pkg :: pkgs' =>
      imps' <- collect_pkg w ignore pkg
                 (range_order w (elements (pkg_Imports pkg))) imps ;;
      collect_pkgs w ignore pkgs' imps'
  end.

Definition analyse_collect (w : World) (ignore : list Regexp)
    (pkgs : list packages_Package) : M (gmap string (list string)) :=
  collect_pkgs w ignore pkgs ∅.

(** The key/value pairs of a map in the order a [range] loop visits them. *)
Definition map_range (w : World) (m : gmap string (list string))
  : list (string * list string) :=
  omap (fun k => (fun v => (k, v)) <$> m !! k)
       (range_order w (elements (dom m))).

(** Lines 155-167: dropping the standard library. *)
Fixpoint filter_loop (w : World) (goos goarch : string) (stdlib : bool)
    (kvs : list (string * list string)) (imports : list string)
  : M (list string) :=
  match kvs with
  | [] => ret imports
  | (i, by_) :: kvs' =>
      if negb stdlib then
        let* (isStd, err) := isStdlib w i goos goarch in
        match err with
        | Some e =>
            emit (Stderr (e +:+ ": imported by " +:+ strings_Join by_ "," +:+ nl)) ;;;
            exit internalError
        | None =>
            if isStd : bool then filter_loop w goos goarch stdlib kvs' imports
            else filter_loop w goos goarch stdlib kvs' (imports ++ [i])
        end
      else filter_loop w goos goarch stdlib kvs' (imports ++ [i])
  end.

Definition analyse_filter (w : World) (goos goarch : string) (stdlib : bool)
    (imps : gmap string (list string)) : M (list string) :=
  filter_loop w goos goarch stdlib (map_range w imps) [].

(** Lines 104-167 together: the root and the import paths to analyse. *)
Definition resolve (w : World) (goos goarch : string) (ignore : list Regexp)
    (module stdlib : bool) : M (string * list string) :=
  root <- analyse_root w module ;;
  pkgs <- analyse_load w goos goarch root ;;
  imps <- analyse_collect w ignore pkgs ;;
  imports <- analyse_filter w goos goarch stdlib imps ;;
  ret (root, imports).

(** Lines 170-172. *)
Fixpoint print_lines (l : list string) : M unit :=
  match l with
  | [] => ret tt
  | i :: l' => Println i ;;; print_lines l'
  end.

(** Lines 168-200: listing, writing the baseline, or comparing. *)
Definition analyse_dispatch (w : World) (goos goarch root : string)
    (imports : list string) (list_ lock verbose noBuiltin : bool)
    (custom : string) : M Z :=
  if list_ then
    let imports := sort_Strings imports in
    print_lines imports ;;;
    exit success
  else if lock then
    let* (buf, err) := capslock w goos goarch imports "verbose"
                         (filepath_Join w root "caps.summary") custom noBuiltin in
    match err with
    | Some e => Eprintln e ;;; exit internalError
    | None =>
        (if verbose then Println (Buffer_String buf) else ret tt) ;;;
        let* (_, err) := capslock w goos goarch imports "json"
                           (filepath_Join w root "caps.lock") custom noBuiltin in
        match err with
        | Some e => Eprintln e ;;; exit internalError
        | None => exit success
        end
    end
  else
    let* (buf, err) := capslock w goos goarch imports "compare"
                         (filepath_Join w root "caps.lock") custom noBuiltin in
    match err with
    | Some e => Eprintln e ;;; exit internalError
    | None =>
        Print (Buffer_String buf) ;;;
        len <- Buffer_Len buf ;;
        if negb (len =? 0) then exit capChangeError else exit success
    end.

Definition analyse (w : World) (goos goarch : string) (ignore : list Regexp)
    (module list_ lock stdlib verbose noBuiltin : bool) (custom : string)
  : M Z :=
  let* (root, imports) := resolve w goos goarch ignore module stdlib in
  analyse_dispatch w goos goarch root imports list_ lock verbose noBuiltin custom.

(** ** [Main] (main.go, lines 33-62)

    The values of the command-line flags after [flag.Parse]. *)
Record Flags := {
  f_lock : bool;
  f_module : bool;
  f_list : bool;
  f_stdlib : bool;
  f_verbose : bool;
  f_goos : string;
  f_goarch : string;
  f_custom : string;
  f_noBuiltin : bool;
  f_ignore : gmap string bool
}.

Definition Main (w : World) (fl : Flags) : M Z :=
  let '(ignorer, err) := set_regexps w (f_ignore fl) in
  if f_noBuiltin fl && String.eqb (f_custom fl) "" then
    Eprintln "disable_builtin requires capability_map" ;;;
    exit invocationError
  else
    match err with
    | Some e => Eprintln e ;;; exit invocationError
    | None =>
        let goos := if String.eqb (f_goos fl) "" then runtime_GOOS w else f_goos fl in
        let goarch := if String.eqb (f_goarch fl) "" then runtime_GOARCH w else f_goarch fl in
        analyse w goos goarch ignorer (f_module fl) (f_list fl) (f_lock fl)
                (f_stdlib fl) (f_verbose fl) (f_noBuiltin fl) (f_custom fl)
    end.

(** [main]: the process ends with the status [Main] returns. *)
Definition main (w : World) (fl : Flags) : M Z :=
  code <- Main w fl ;;
  exit code.

(** ** Concrete scenarios

    Worlds on which the program can be run.  The library functions are given
    simple implementations that agree with the Go ones on the inputs used:
    white space is the six ASCII white-space bytes, a pattern without
    metacharacters matches wherever it occurs, paths are slash separated. *)

Definition is_space (c : ascii) : bool :=
  match nat_of_ascii c with
  | 9%nat | 10%nat | 11%nat | 12%nat | 13%nat | 32%nat => true
  | _ => false
  end.

Fixpoint trim_left (s : string) : string :=
  match s with
  | EmptyString => EmptyString
  | String c s' => if is_space c then trim_left s' else s
  end.

Definition ascii_TrimSpace (s : string) : string :=
  String.rev (trim_left (String.rev (trim_left s))).

Definition literal_search (pat s : string) : bool :=
  match String.index 0 pat s with Some _ => true | None => false end.

Definition slash_Dir (s : string) : string :=
  let r := String.rev s in
  match String.index 0 "/" r with
  | Some i => String.rev (String.substring (S i) (String.length r - S i) r)
  | None => "."
  end.

Definition slash_Join (a b : string) : string := a +:+ "/" +:+ b.

Definition ok_result (out : string) : CmdResult :=
  {| cmd_err := None; cmd_stdout := out; cmd_stderr := "" |}.

(** The [go] tool: [env GOMOD] prints [gomod]; [list] classifies the paths
    in [std] as standard library. *)
Definition go_tool (gomod : CmdResult) (std : list string) (args : list string)
  : CmdResult :=
  match args with
  | ["env"; "GOMOD"] => gomod
  | ["list"; _; p] =>
      ok_result ((if bool_decide (p ∈ std) then "true" else "false") +:+ nl)
  | _ => {| cmd_err := Some "exit status 2"; cmd_stdout := "";
            cmd_stderr := "unknown command" |}
  end.

(** The analyzer: the output depends on the requested format only. *)
Definition analyzer (diff : string) (args : list string) : CmdResult :=
  match args !! 5%nat with
  | Some "compare" => ok_result diff
  | Some "verbose" => ok_result "summary"
  | Some "json" => ok_result "{}"
  | _ => {| cmd_err := Some "exit status 1"; cmd_stdout := "";
            cmd_stderr := "bad output format" |}
  end.

Definition scenario (gomod : CmdResult) (pkgs : list packages_Package)
    (diff : string) (order : list string -> list string) : World := {|
  runtime_GOOS := "linux";
  runtime_GOARCH := "amd64";
  os_DevNull := "/dev/null";
  os_Environ := ["HOME=/root"];
  packages_NeedImports := 8;
  packages_NeedModule := 8192;
  strings_TrimSpace := ascii_TrimSpace;
  filepath_Dir := slash_Dir;
  filepath_Join := slash_Join;
  regexp_Compile := fun p =>
    if String.eqb p "(" then inr "missing closing )" else inl {| expr := p |};
  regexp_MatchString := fun re s => literal_search (expr re) s;
  cmd_Run := fun name args _ =>
    if String.eqb name "go" then go_tool gomod ["fmt"; "os"] args
    else analyzer diff args;
  os_Getwd := inl "/work/sub";
  packages_Load := fun _ _ => inl pkgs;
  packages_PrintErrors := fun _ => [];
  os_WriteFile := fun _ _ _ => None;
  range_order := order
|}.

Definition mkpkg (id : string) (imports : list string) (m : option string)
  : packages_Package :=
  {| pkg_ID := id;
     pkg_Imports := list_to_set imports;
     pkg_Module := (fun p => {| mod_Path := p |}) <$> m |}.

Definition in_module : CmdResult := ok_result ("/work/go.mod" +:+ nl).

(** A module [m] whose only package imports an external package, an ignored
    one, a standard-library one and a package of the module itself. *)
Definition pkgs_ok : list packages_Package :=
  [mkpkg "m/p" ["A"; "B-ignored"; "fmt"; "m/q"] (Some "m")].

Definition w_ok : World := scenario in_module pkgs_ok "diff" id.

(** No [go.mod] above the working directory. *)
Definition w_nomod : World :=
  scenario (ok_result ("/dev/null" +:+ nl)) pkgs_ok "diff" id.

(** The [go] tool is not running in module-aware mode. *)
Definition w_gopath : World := scenario (ok_result nl) pkgs_ok "diff" id.

(** Packages of two modules; the first imports a package of the second. *)
Definition pkgs_two : list packages_Package :=
  [mkpkg "a/p" ["b/x"] (Some "a"); mkpkg "b/y" ["b/x"] (Some "b")].

Definition w_two : World := scenario in_module pkgs_two "diff" id.

(** Two external imports, visited in either order. *)
Definition pkgs_ab : list packages_Package := [mkpkg "m/p" ["a"; "b"] (Some "m")].

Definition w_fwd : World := scenario in_module pkgs_ab "diff" id.
Definition w_rev : World := scenario in_module pkgs_ab "diff" (@rev string).

(** A loaded package without module information. *)
Definition pkgs_nilmod : list packages_Package := [mkpkg "p" ["a"] None].

Definition w_nilmod : World := scenario in_module pkgs_nilmod "diff" id.

Definition default_flags : Flags := {|
  f_lock := false; f_module := true; f_list := false; f_stdlib := false;
  f_verbose := false; f_goos := ""; f_goarch := ""; f_custom := "";
  f_noBuiltin := false; f_ignore := ∅
|}.

Definition with_ignore (fl : Flags) (ps : list string) : Flags := {|
  f_lock := f_lock fl; f_module := f_module fl; f_list := f_list fl;
  f_stdlib := f_stdlib fl; f_verbose := f_verbose fl; f_goos := f_goos fl;
  f_goarch := f_goarch fl; f_custom := f_custom fl;
  f_noBuiltin := f_noBuiltin fl; f_ignore := foldl set_Set ∅ ps
|}.

Definition with_module (fl : Flags) (b : bool) : Flags := {|
  f_lock := f_lock fl; f_module := b; f_list := f_list fl;
  f_stdlib := f_stdlib fl; f_verbose := f_verbose fl; f_goos := f_goos fl;
  f_goarch := f_goarch fl; f_custom := f_custom fl;
  f_noBuiltin := f_noBuiltin fl; f_ignore := f_ignore fl
|}.

Definition with_noBuiltin (fl : Flags) (b : bool) : Flags := {|
  f_lock := f_lock fl; f_module := f_module fl; f_list := f_list fl;
  f_stdlib := f_stdlib fl; f_verbose := f_verbose fl; f_goos := f_goos fl;
  f_goarch := f_goarch fl; f_custom := f_custom fl;
  f_noBuiltin := b; f_ignore := f_ignore fl
|}.

(** What resolving the imports of [w_ok] does, with the pattern [B] ignored. *)
Definition ignore_B : list Regexp := [{| expr := "B" |}].

Definition env_ok : list string := ["HOME=/root"; "GOOS=linux"; "GOARCH=amd64"].

Definition evs_ok : list event :=
  [Exec "go" ["env"; "GOMOD"] None;
   LoadCall {| cfg_Tests := false; cfg_Mode := 8200; cfg_Env := env_ok |}
            "/work/...";
   Exec "go" ["list"; "-f={{.Standard}}"; "A"] (Some env_ok);
   Exec "go" ["list"; "-f={{.Standard}}"; "fmt"] (Some env_ok)].



(** ** Notions used to state further properties *)

(** The same world with another order of map iteration. *)
Definition with_order (w : World) (order : list string -> list string) : World := {|
  runtime_GOOS := runtime_GOOS w;
  runtime_GOARCH := runtime_GOARCH w;
  os_DevNull := os_DevNull w;
  os_Environ := os_Environ w;
  packages_NeedImports := packages_NeedImports w;
  packages_NeedModule := packages_NeedModule w;
  strings_TrimSpace := strings_TrimSpace w;
  filepath_Dir := filepath_Dir w;
  filepath_Join := filepath_Join w;
  regexp_Compile := regexp_Compile w;
  regexp_MatchString := regexp_MatchString w;
  cmd_Run := cmd_Run w;
  os_Getwd := os_Getwd w;
  packages_Load := packages_Load w;
  packages_PrintErrors := packages_PrintErrors w;
  os_WriteFile := os_WriteFile w;
  range_order := order
|}.

(** The classification query that [isStdlib] runs for an import path, the
    event it leaves, and its verdict when the query succeeds. *)
Definition classify_args (p : string) : list string :=
  ["list"; "-f={{.Standard}}"; p].

Definition classify (w : World) (goos goarch p : string) : CmdResult :=
  cmd_Run w "go" (classify_args p) (Some (go_env w goos goarch)).

Definition classify_event (w : World) (goos goarch p : string) : event :=
  Exec "go" (classify_args p) (Some (go_env w goos goarch)).

Definition is_std (w : World) (goos goarch p : string) : bool :=
  String.eqb (strings_TrimSpace w (cmd_stdout (classify w goos goarch p))) "true".


(** Whether the collection loop records import [I] for package [pkg]. *)
Definition records (w : World) (ignore : list Regexp) (I : string)
    (pkg : packages_Package) : bool :=
  bool_decide (I ∈ pkg_Imports pkg) &&
  match pkg_Module pkg with
  | Some m => negb (strings_HasPrefix I (mod_Path m)) &&
              negb (matchers_match w ignore I)
  | None => false
  end.

(** The packages that the collection loop records as importers of [I], in
    load order. *)
Definition importers (w : World) (ignore : list Regexp) (I : string)
    (pkgs : list packages_Package) : list string :=
  pkg_String <$> filter (fun pkg => records w ignore I pkg = true) pkgs.

(** A world in which every [go list] query fails. *)
Definition failing_list : CmdResult :=
  {| cmd_err := Some "exit status 1"; cmd_stdout := "";
     cmd_stderr := "no required module provides package A; to add it: go get A" |}.

Definition w_badlist : World := {|
  runtime_GOOS := "linux";
  runtime_GOARCH := "amd64";
  os_DevNull := "/dev/null";
  os_Environ := ["HOME=/root"];
  packages_NeedImports := 8;
  packages_NeedModule := 8192;
  strings_TrimSpace := ascii_TrimSpace;
  filepath_Dir := slash_Dir;
  filepath_Join := slash_Join;
  regexp_Compile := fun p => inl {| expr := p |};
  regexp_MatchString := fun re s => literal_search (expr re) s;
  cmd_Run := fun name args _ =>
    match args with
    | "list" :: _ => failing_list
    | _ => if String.eqb name "go" then in_module else analyzer "" args
    end;
  os_Getwd := inl "/work/sub";
  packages_Load := fun _ _ => inl [mkpkg "m/p" ["A"] (Some "m")];
  packages_PrintErrors := fun _ => [];
  os_WriteFile := fun _ _ _ => None;
  range_order := id
|}.

(** The compiled form of a pattern, when it compiles. *)
Definition compiled (w : World) (p : string) : option Regexp :=
  match regexp_Compile w p with
  | inl r => Some r
  | inr _ => None
  end.

(** The statuses with which a computation can leave. *)
Definition exits_in {A} (S : Z -> Prop) (m : M A) : Prop :=
  forall c, snd m = Exit c -> S c.

(** The same world with other answers of the loader, of the working
    directory, of the processes. *)
Definition with_load (w : World)
    (load : packages_Config -> string -> list packages_Package + error) : World := {|
  runtime_GOOS := runtime_GOOS w;
  runtime_GOARCH := runtime_GOARCH w;
  os_DevNull := os_DevNull w;
  os_Environ := os_Environ w;
  packages_NeedImports := packages_NeedImports w;
  packages_NeedModule := packages_NeedModule w;
  strings_TrimSpace := strings_TrimSpace w;
  filepath_Dir := filepath_Dir w;
  filepath_Join := filepath_Join w;
  regexp_Compile := regexp_Compile w;
  regexp_MatchString := regexp_MatchString w;
  cmd_Run := cmd_Run w;
  os_Getwd := os_Getwd w;
  packages_Load := load;
  packages_PrintErrors := packages_PrintErrors w;
  os_WriteFile := os_WriteFile w;
  range_order := range_order w
|}.

Definition with_getwd (w : World) (wd : string + error) : World := {|
  runtime_GOOS := runtime_GOOS w;
  runtime_GOARCH := runtime_GOARCH w;
  os_DevNull := os_DevNull w;
  os_Environ := os_Environ w;
  packages_NeedImports := packages_NeedImports w;
  packages_NeedModule := packages_NeedModule w;
  strings_TrimSpace := strings_TrimSpace w;
  filepath_Dir := filepath_Dir w;
  filepath_Join := filepath_Join w;
  regexp_Compile := regexp_Compile w;
  regexp_MatchString := regexp_MatchString w;
  cmd_Run := cmd_Run w;
  os_Getwd := wd;
  packages_Load := packages_Load w;
  packages_PrintErrors := packages_PrintErrors w;
  os_WriteFile := os_WriteFile w;
  range_order := range_order w
|}.

Definition with_run (w : World)
    (run : string -> list string -> option (list string) -> CmdResult) : World := {|
  runtime_GOOS := runtime_GOOS w;
  runtime_GOARCH := runtime_GOARCH w;
  os_DevNull := os_DevNull w;
  os_Environ := os_Environ w;
  packages_NeedImports := packages_NeedImports w;
  packages_NeedModule := packages_NeedModule w;
  strings_TrimSpace := strings_TrimSpace w;
  filepath_Dir := filepath_Dir w;
  filepath_Join := filepath_Join w;
  regexp_Compile := regexp_Compile w;
  regexp_MatchString := regexp_MatchString w;
  cmd_Run := run;
  os_Getwd := os_Getwd w;
  packages_Load := packages_Load w;
  packages_PrintErrors := packages_PrintErrors w;
  os_WriteFile := os_WriteFile w;
  range_order := range_order w
|}.

(** The packages cannot be loaded. *)
Definition w_noload : World :=
  with_load w_ok (fun _ _ => inr "cannot find main module").

(** The working directory cannot be read. *)
Definition w_nowd : World := with_getwd w_ok (inr "getwd: no such file or directory").

(** The analyzer is not installed. *)
Definition w_noanalyzer : World :=
  with_run w_ok (fun name args env =>
    if String.eqb name "capslock" then
      {| cmd_err := Some "executable file not found in $PATH";
         cmd_stdout := ""; cmd_stderr := "" |}
    else cmd_Run w_ok name args env).

Definition flags_listing : Flags := {|
  f_lock := false; f_module := true; f_list := true; f_stdlib := false;
  f_verbose := false; f_goos := ""; f_goarch := ""; f_custom := "";
  f_noBuiltin := false; f_ignore := ∅
|}.

Definition flags_lock : Flags := {|
  f_lock := true; f_module := true; f_list := false; f_stdlib := false;
  f_verbose := true; f_goos := ""; f_goarch := ""; f_custom := "";
  f_noBuiltin := false; f_ignore := ∅
|}.

Definition with_target (fl : Flags) (goos goarch : string) : Flags := {|
  f_lock := f_lock fl; f_module := f_module fl; f_list := f_list fl;
  f_stdlib := f_stdlib fl; f_verbose := f_verbose fl; f_goos := goos;
  f_goarch := goarch; f_custom := f_custom fl;
  f_noBuiltin := f_noBuiltin fl; f_ignore := f_ignore fl
|}.

(** The target given on the command line or, when empty, the host's. *)
Definition effective_goos (w : World) (fl : Flags) : string :=
  if String.eqb (f_goos fl) "" then runtime_GOOS w else f_goos fl.

Definition effective_goarch (w : World) (fl : Flags) : string :=
  if String.eqb (f_goarch fl) "" then runtime_GOARCH w else f_goarch fl.

(** * Properties *)

(** ** The exit codes *)

Lemma exit_codes :
  success = 0 /\ internalError = 1 /\ invocationError = 2 /\ capChangeError = 4.
Proof. repeat split; reflexivity. Qed.

(** ** The library models on small inputs *)

Example strings_Cut_found : strings_Cut "a;b;c" ";" = ("a", "b;c", true).
Proof. reflexivity. Qed.

Example strings_Cut_missing : strings_Cut "abc" ";" = ("abc", "", false).
Proof. reflexivity. Qed.

Example strings_HasPrefix_module : strings_HasPrefix "m/q" "m" = true.
Proof. reflexivity. Qed.

Example strings_HasPrefix_longer : strings_HasPrefix "m" "m/q" = false.
Proof. reflexivity. Qed.

Example sort_Strings_bytes :
  sort_Strings ["b"; "a"; "B"; "ab"; ""] = [""; "B"; "a"; "ab"; "b"].
Proof. vm_compute. reflexivity. Qed.

Example set_String_sorted : set_String (set_Set (set_Set ∅ "b") "a") = "a,b".
Proof. vm_compute. reflexivity. Qed.

Example ascii_TrimSpace_line :
  ascii_TrimSpace ("  /work/go.mod " +:+ nl) = "/work/go.mod".
Proof. vm_compute. reflexivity. Qed.

(** An ignore pattern that does not compile is an invocation error. *)
Example bad_pattern :
  main w_ok (with_ignore default_flags ["("])
  = ([Stderr ("missing closing )" +:+ nl)], Exit 2).
Proof. vm_compute. reflexivity. Qed.

(** The scenario of the specification: imports [A], [B-ignored], [fmt] and a
    package of the module itself, pattern [B], standard library excluded. *)
Example scenario_target :
  snd (resolve w_ok "linux" "amd64" ignore_B true false) = Val ("/work", ["A"]).
Proof. vm_compute. reflexivity. Qed.

(** ** Reasoning about [bind] *)

Lemma bind_Val_inv {A B} (m : M A) (f : A -> M B) evs b :
  bind m f = (evs, Val b) ->
  exists e1 a e2, m = (e1, Val a) /\ f a = (e2, Val b) /\ evs = e1 ++ e2.
Proof.
  destruct m as [e1 [a | c |]]; simpl; try discriminate.
  destruct (f a) as [e2 r] eqn:Hf. intros [= <- ->]. eauto 6.
Qed.

Lemma bind_Val {A B} (m : M A) (f : A -> M B) e1 a :
  m = (e1, Val a) -> bind m f = (e1 ++ fst (f a), snd (f a)).
Proof. intros ->. simpl. by destruct (f a). Qed.

Lemma bind_events {A B} (P : event -> Prop) (m : M A) (f : A -> M B) :
  Forall P (fst m) -> (forall a, Forall P (fst (f a))) -> Forall P (fst (bind m f)).
Proof.
  destruct m as [e1 [a | c |]]; simpl; intros H1 H2; try done.
  specialize (H2 a). destruct (f a) as [e2 r]. simpl in *.
  by apply Forall_app.
Qed.

Lemma bind_not_Panic {A B} (m : M A) (f : A -> M B) :
  snd m <> Panic -> (forall a, snd (f a) <> Panic) -> snd (bind m f) <> Panic.
Proof.
  destruct m as [e1 [a | c |]]; simpl; intros H1 H2; try done.
  specialize (H2 a). by destruct (f a).
Qed.

(** ** Standard output of a trace *)

Lemma string_app_cons (x : ascii) (a b : string) :
  String x a +:+ b = String x (a +:+ b).
Proof. reflexivity. Qed.

Lemma string_app_assoc (a b c : string) : (a +:+ b) +:+ c = a +:+ (b +:+ c).
Proof.
  induction a as [| x a IH]; [done |].
  by rewrite !string_app_cons, IH.
Qed.

Lemma string_app_nil_r (a : string) : a +:+ "" = a.
Proof.
  induction a as [| x a IH]; [done |].
  by rewrite string_app_cons, IH.
Qed.

Lemma stdout_of_app (e1 e2 : list event) :
  stdout_of (e1 ++ e2) = stdout_of e1 +:+ stdout_of e2.
Proof.
  induction e1 as [| e e1 IH]; simpl; [done |].
  destruct e; simpl; rewrite IH; try done.
  symmetry. apply string_app_assoc.
Qed.

(** ** Events of the resolution phase

    Resolving the imports runs the [go] tool, asks for the working directory,
    loads packages and writes diagnostics; nothing else
    ([resolution_event]). *)

Ltac events_step :=
  match goal with
  | |- Forall _ (fst (bind _ _)) => apply bind_events; [| intros ?]
  | |- Forall _ (fst (emit _)) => apply Forall_singleton; simpl; done
  | |- Forall _ (fst (Eprintln _)) => apply Forall_singleton; simpl; done
  | |- Forall _ (fst (ret _)) => apply Forall_nil_2
  | |- Forall _ (fst (exit _)) => apply Forall_nil_2
  | |- Forall _ (fst panic) => apply Forall_nil_2
  | |- Forall _ (fst (match ?x with _ => _ end)) => destruct x
  | |- Forall _ (fst (if ?b then _ else _)) => destruct b
  | |- Forall _ (fst (let '(_, _) := ?x in _)) => destruct x
  end.

Lemma moduleRoot_events w : Forall resolution_event (fst (moduleRoot w)).
Proof. unfold moduleRoot. repeat events_step. Qed.

Lemma analyse_root_events w module :
  Forall resolution_event (fst (analyse_root w module)).
Proof.
  unfold analyse_root. apply bind_events; [apply moduleRoot_events |].
  intros [[root valid] err]. repeat events_step.
Qed.

Lemma PrintErrors_events w pkgs :
  Forall resolution_event (fst (PrintErrors w pkgs)).
Proof.
  unfold PrintErrors. apply bind_events; [| intros; events_step].
  induction (packages_PrintErrors w pkgs) as [| e l IH]; repeat events_step.
  exact IH.
Qed.

Lemma analyse_load_events w goos goarch root :
  Forall resolution_event (fst (analyse_load w goos goarch root)).
Proof.
  unfold analyse_load. events_step; [events_step |].
  events_step; [| repeat events_step].
  apply bind_events; [apply PrintErrors_events |]. intros. repeat events_step.
Qed.

Lemma collect_pkg_events w ignore pkg keys imps :
  fst (collect_pkg w ignore pkg keys imps) = [].
Proof.
  revert imps. induction keys as [| imp keys IH]; intros imps; simpl; [done |].
  destruct (pkg_Module pkg); [| done].
  destruct (strings_HasPrefix _ _); [apply IH |].
  destruct (matchers_match _ _ _); apply IH.
Qed.

Lemma collect_pkgs_events w ignore pkgs imps :
  fst (collect_pkgs w ignore pkgs imps) = [].
Proof.
  revert imps. induction pkgs as [| pkg pkgs IH]; intros imps; simpl; [done |].
  pose proof (collect_pkg_events w ignore pkg
                (range_order w (elements (pkg_Imports pkg))) imps) as H.
  destruct (collect_pkg _ _ _ _ _) as [e [imps' | c |]]; simpl in *; subst; try done.
  specialize (IH imps'). destruct (collect_pkgs _ _ _ _). simpl in *. by subst.
Qed.

Lemma isStdlib_events w p goos goarch :
  Forall resolution_event (fst (isStdlib w p goos goarch)).
Proof.
  unfold isStdlib. events_step; [events_step |].
  destruct (cmd_err _); [| events_step].
  destruct (strings_Cut _ _) as [[note after] ok]. repeat events_step.
Qed.

Lemma filter_loop_events w goos goarch stdlib kvs imports :
  Forall resolution_event (fst (filter_loop w goos goarch stdlib kvs imports)).
Proof.
  revert imports.
  induction kvs as [| [i by_] kvs IH]; intros imports; cbn [filter_loop].
  - events_step.
  - destruct stdlib; cbn [negb]; [apply IH |].
    apply bind_events; [apply isStdlib_events |].
    intros [isStd [e |]]; [repeat events_step |].
    destruct isStd; apply IH.
Qed.

Lemma resolve_events w goos goarch ignore module stdlib :
  Forall resolution_event (fst (resolve w goos goarch ignore module stdlib)).
Proof.
  unfold resolve.
  apply bind_events; [apply analyse_root_events | intros root].
  apply bind_events; [apply analyse_load_events | intros pkgs].
  apply bind_events; [| intros imps].
  { unfold analyse_collect. rewrite collect_pkgs_events. constructor. }
  apply bind_events; [apply filter_loop_events | intros imports].
  events_step.
Qed.

Lemma resolution_events_stdout evs :
  Forall resolution_event evs -> stdout_of evs = "".
Proof.
  induction 1 as [| e evs He _ IH]; simpl; [done |].
  destruct e; simpl in *; done.
Qed.

Lemma resolution_events_no_baseline evs :
  Forall resolution_event evs ->
  Forall (fun e => is_baseline_event e = false) evs.
Proof.
  intros H. eapply Forall_impl; [exact H |].
  intros [name args env | | | | |]; simpl; try done.
  by intros ->.
Qed.

(** ** The ignore patterns *)

Lemma matchers_match_true w (m : list Regexp) s :
  matchers_match w m s = true <->
  exists re, re ∈ m /\ regexp_MatchString w re s = true.
Proof.
  induction m as [| re m IH]; simpl.
  - split; [done | intros (re & Hin & _); by apply elem_of_nil in Hin].
  - destruct (regexp_MatchString w re s) eqn:Hre.
    + split; [intros _; exists re; split; [left | done] | done].
    + rewrite IH. split.
      * intros (re' & Hin & Hm). exists re'. split; [by right | done].
      * intros (re' & Hin & Hm). apply elem_of_cons in Hin as [-> | Hin].
        { congruence. }
        eauto.
Qed.

Lemma regexps_loop_ok w ps (re0 re : list Regexp) :
  regexps_loop w ps re0 = (re, None) ->
  (forall r, r ∈ re0 -> r ∈ re) /\
  (forall p r, p ∈ ps -> regexp_Compile w p = inl r -> r ∈ re).
Proof.
  revert re0. induction ps as [| p ps IH]; intros re0; simpl.
  - intros [= <-]. split; [done | intros p r Hin; by apply elem_of_nil in Hin].
  - destruct (regexp_Compile w p) as [r0 | e] eqn:Hp; [| done].
    intros H. apply IH in H as [H0 H1]. split.
    + intros r Hr. apply H0. apply elem_of_app. by left.
    + intros q r Hq Hc. apply elem_of_cons in Hq as [-> | Hq]; [| eauto].
      rewrite Hp in Hc. injection Hc as <-.
      apply H0. apply elem_of_app. right. by apply list_elem_of_singleton.
Qed.

(** Every pattern given with [-i] is among the compiled matchers. *)
Lemma set_regexps_complete w (P : gmap string bool) ignorer p r :
  range_ok w ->
  set_regexps w P = (ignorer, None) ->
  p ∈ dom P -> regexp_Compile w p = inl r -> r ∈ ignorer.
Proof.
  intros Hw H Hp Hc. unfold set_regexps in H.
  apply regexps_loop_ok in H as [_ H]. apply (H p r); [| done].
  rewrite (Hw (elements (dom P))). by apply elem_of_elements.
Qed.

(** ** Where a collected import comes from *)

Lemma collect_pkg_dom w ignore pkg keys (imps imps' : gmap string (list string)) evs I :
  collect_pkg w ignore pkg keys imps = (evs, Val imps') ->
  I ∈ dom imps' ->
  I ∈ dom imps \/
  (I ∈ keys /\ matchers_match w ignore I = false /\
   exists m, pkg_Module pkg = Some m /\ strings_HasPrefix I (mod_Path m) = false).
Proof.
  revert imps. induction keys as [| imp keys IH]; intros imps; cbn [collect_pkg].
  - intros [= _ <-]. by left.
  - destruct (pkg_Module pkg) as [m |] eqn:Hm; [| done].
    destruct (strings_HasPrefix imp (mod_Path m)) eqn:Hpre.
    { intros H HI. destruct (IH _ H HI) as [? | (? & ? & ?)]; [by left |].
      right. split; [by right | done]. }
    destruct (matchers_match w ignore imp) eqn:Hig.
    { intros H HI. destruct (IH _ H HI) as [? | (? & ? & ?)]; [by left |].
      right. split; [by right | done]. }
    intros H HI. destruct (IH _ H HI) as [Hd | (? & ? & ?)].
    + rewrite dom_insert_L in Hd. apply elem_of_union in Hd as [Hd | Hd].
      * apply elem_of_singleton in Hd as ->. right.
        split; [by left |]. split; [done |]. by exists m.
      * by left.
    + right. split; [by right | done].
Qed.

Lemma collect_pkgs_dom w ignore pkgs (imps imps' : gmap string (list string)) evs I :
  collect_pkgs w ignore pkgs imps = (evs, Val imps') ->
  I ∈ dom imps' ->
  I ∈ dom imps \/
  exists pkg m, pkg ∈ pkgs /\
    I ∈ range_order w (elements (pkg_Imports pkg)) /\
    matchers_match w ignore I = false /\
    pkg_Module pkg = Some m /\ strings_HasPrefix I (mod_Path m) = false.
Proof.
  revert imps evs. induction pkgs as [| pkg pkgs IH]; intros imps evs; cbn [collect_pkgs].
  - intros [= _ <-]. by left.
  - intros H HI. apply bind_Val_inv in H as (e1 & imps1 & e2 & H1 & H2 & _).
    destruct (IH _ _ H2 HI) as [Hd | (pkg' & m & Hin & ?)].
    + destruct (collect_pkg_dom _ _ _ _ _ _ _ _ H1 Hd) as [? | (Hk & Hig & m & Hm & Hpre)].
      * by left.
      * right. exists pkg, m. split; [by left | done].
    + right. exists pkg', m. split; [by right | done].
Qed.

Lemma filter_loop_subset w goos goarch stdlib kvs imports imports' evs I :
  filter_loop w goos goarch stdlib kvs imports = (evs, Val imports') ->
  I ∈ imports' -> I ∈ imports \/ I ∈ kvs.*1.
Proof.
  revert imports evs.
  induction kvs as [| [i by_] kvs IH]; intros imports evs; cbn [filter_loop].
  - intros [= _ <-]. by left.
  - assert (Hstep : forall e, filter_loop w goos goarch stdlib kvs (imports ++ [i])
                      = (e, Val imports') ->
                    I ∈ imports' -> I ∈ imports \/ I ∈ ((i, by_) :: kvs).*1).
    { intros e H HI. destruct (IH _ _ H HI) as [Hin | Hin].
      - apply elem_of_app in Hin as [Hin | Hin]; [by left |].
        apply list_elem_of_singleton in Hin as ->. right. simpl. by left.
      - right. simpl. by right. }
    destruct stdlib; cbn [negb]; [apply Hstep |].
    intros H HI. apply bind_Val_inv in H as (e1 & [isStd err] & e2 & _ & H2 & _).
    destruct err as [e |]; [done |].
    destruct isStd; [| by eapply Hstep].
    destruct (IH _ _ H2 HI) as [? | ?]; [by left |]. right. simpl. by right.
Qed.

Lemma map_range_keys w (m : gmap string (list string)) I :
  I ∈ (map_range w m).*1 -> I ∈ dom m.
Proof.
  intros H. apply list_elem_of_fmap in H as ([k v] & -> & H).
  unfold map_range in H. apply list_elem_of_omap in H as (k' & _ & Hk).
  destruct (m !! k') as [v' |] eqn:Hl; simpl in Hk; [| done].
  injection Hk as <- <-. apply elem_of_dom. by exists v'.
Qed.

(** An import path handed to the analyzer was imported by a loaded package
    whose module path is not a prefix of it, and no ignore pattern matches
    it. *)
Lemma analysis_target_origin w goos goarch ignore stdlib pkgs imps imports e1 e2 I :
  analyse_collect w ignore pkgs = (e1, Val imps) ->
  analyse_filter w goos goarch stdlib imps = (e2, Val imports) ->
  I ∈ imports ->
  exists pkg m, pkg ∈ pkgs /\
    I ∈ range_order w (elements (pkg_Imports pkg)) /\
    matchers_match w ignore I = false /\
    pkg_Module pkg = Some m /\ strings_HasPrefix I (mod_Path m) = false.
Proof.
  intros Hc Hf HI. unfold analyse_filter in Hf.
  destruct (filter_loop_subset _ _ _ _ _ _ _ _ _ Hf HI) as [Hn | Hk].
  { by apply elem_of_nil in Hn. }
  apply map_range_keys in Hk. unfold analyse_collect in Hc.
  destruct (collect_pkgs_dom _ _ _ _ _ _ _ Hc Hk) as [Hd | H]; [| done].
  rewrite dom_empty_L in Hd. by apply elem_of_empty in Hd.
Qed.

Lemma resolve_inv w goos goarch ignore module stdlib evs root imports :
  resolve w goos goarch ignore module stdlib = (evs, Val (root, imports)) ->
  exists e0 e1 pkgs e2 imps e3,
    analyse_root w module = (e0, Val root) /\
    analyse_load w goos goarch root = (e1, Val pkgs) /\
    analyse_collect w ignore pkgs = (e2, Val imps) /\
    analyse_filter w goos goarch stdlib imps = (e3, Val imports) /\
    evs = e0 ++ e1 ++ e2 ++ e3.
Proof.
  unfold resolve. intros H.
  apply bind_Val_inv in H as (e0 & root' & r0 & H0 & H & ->).
  apply bind_Val_inv in H as (e1 & pkgs & r1 & H1 & H & ->).
  apply bind_Val_inv in H as (e2 & imps & r2 & H2 & H & ->).
  apply bind_Val_inv in H as (e3 & imports' & r3 & H3 & H & ->).
  injection H as <- <- <-.
  exists e0, e1, pkgs, e2, imps, e3. by rewrite app_nil_r.
Qed.

(** ** Running the analyzer *)

Lemma capslock_compare w goos goarch pkgs path custom noBuiltin :
  let args := capslock_args goos goarch pkgs "compare" path custom noBuiltin in
  let r := cmd_Run w "capslock" args None in
  capslock w goos goarch pkgs "compare" path custom noBuiltin =
  ([Exec "capslock" args None],
   Val (match cmd_err r with
        | Some err => (None, Some ("capslock: " +:+ err +:+ ": " +:+ cmd_stderr r))
        | None => (Some (cmd_stdout r), None)
        end)).
Proof.
  intros args r. unfold capslock. fold args. fold r.
  change (String.eqb "compare" "compare") with true. cbn [negb].
  by destruct (cmd_err r).
Qed.

Lemma capslock_write w goos goarch pkgs format path custom noBuiltin :
  String.eqb format "compare" = false ->
  let args := capslock_args goos goarch pkgs format path custom noBuiltin in
  let r := cmd_Run w "capslock" args None in
  capslock w goos goarch pkgs format path custom noBuiltin =
  match cmd_err r with
  | Some err =>
      ([Exec "capslock" args None],
       Val (None, Some ("capslock: " +:+ err +:+ ": " +:+ cmd_stderr r)))
  | None =>
      ([Exec "capslock" args None; WriteFileCall path (cmd_stdout r) 436],
       Val (Some (cmd_stdout r), os_WriteFile w path (cmd_stdout r) 436))
  end.
Proof.
  intros Hf args r. unfold capslock. fold args. fold r. rewrite Hf. cbn [negb].
  by destruct (cmd_err r).
Qed.

Lemma string_length_zero (s : string) : String.length s = 0%nat <-> s = "".
Proof. destruct s; simpl; split; done. Qed.

Lemma analyse_resolved w goos goarch ignore module list_ lock stdlib verbose
    noBuiltin custom evs root imports :
  resolve w goos goarch ignore module stdlib = (evs, Val (root, imports)) ->
  analyse w goos goarch ignore module list_ lock stdlib verbose noBuiltin custom =
  (evs ++ fst (analyse_dispatch w goos goarch root imports list_ lock verbose
                 noBuiltin custom),
   snd (analyse_dispatch w goos goarch root imports list_ lock verbose
          noBuiltin custom)).
Proof. intros H. unfold analyse. by rewrite (bind_Val _ _ _ _ H). Qed.

Lemma analyse_unresolved w goos goarch ignore module list_ lock stdlib verbose
    noBuiltin custom :
  (forall x, snd (resolve w goos goarch ignore module stdlib) <> Val x) ->
  analyse w goos goarch ignore module list_ lock stdlib verbose noBuiltin custom =
  (fst (resolve w goos goarch ignore module stdlib),
   match snd (resolve w goos goarch ignore module stdlib) with
   | Val _ => Panic
   | Exit c => Exit c
   | Panic => Panic
   end).
Proof.
  intros H. unfold analyse.
  destruct (resolve w goos goarch ignore module stdlib) as [e [x | c |]];
    simpl in *; try done.
  by destruct (H x).
Qed.

Lemma print_lines_spec (l : list string) :
  print_lines l = (map (fun i => Stdout (i +:+ nl)) l, Val tt).
Proof.
  induction l as [| i l IH]; [done |].
  cbn [print_lines]. unfold Println, emit. cbn [bind]. by rewrite IH.
Qed.

(** ** Sorting *)

Lemma sort_Strings_sorted (l : list string) : Sorted String.le (sort_Strings l).
Proof. apply Sorted_merge_sort, _. Qed.

Lemma sort_Strings_perm (l : list string) : sort_Strings l ≡ₚ l.
Proof. apply merge_sort_Permutation. Qed.

(** The sorted list does not depend on the order of the input. *)
Lemma sort_Strings_order_independent (l1 l2 : list string) :
  l1 ≡ₚ l2 -> sort_Strings l1 = sort_Strings l2.
Proof.
  intros H. apply (Sorted_unique String.le); try apply sort_Strings_sorted.
  by rewrite !sort_Strings_perm.
Qed.

(** * The claims *)

(** C4.  When [-disable_builtin] is given and [-capability_map] is empty, the
    program writes one diagnostic to standard error and ends with the
    invocation-error status 2.  The trace holds that single event: no
    resolution step and no external process precede it. *)
Theorem C4_disable_builtin_needs_map (w : World) (fl : Flags) :
  f_noBuiltin fl = true ->
  f_custom fl = "" ->
  main w fl =
  ([Stderr ("disable_builtin requires capability_map" +:+ nl)], Exit 2).
Proof.
  intros Hb Hc. unfold main, Main. rewrite Hb, Hc.
  by destruct (set_regexps w (f_ignore fl)) as [ignorer err].
Qed.

Lemma C4_witness :
  main w_ok (with_noBuiltin default_flags true) =
  ([Stderr ("disable_builtin requires capability_map" +:+ nl)], Exit 2).
Proof. apply C4_disable_builtin_needs_map; reflexivity. Defined.

(** C1.  In comparing mode (neither [-imports] nor [-lock]), once the imports
    are resolved and the analyzer has run without error, its output is all
    that reaches standard output, byte for byte; the status is 4 when that
    output is non-empty and 0 when it is empty. *)
Theorem C1_compare_echo_and_status (w : World) (goos goarch : string)
    (ignore : list Regexp) (module stdlib verbose noBuiltin : bool)
    (custom : string) (evs : list event) (root : string)
    (imports : list string) (out errtxt : string) :
  resolve w goos goarch ignore module stdlib = (evs, Val (root, imports)) ->
  cmd_Run w "capslock"
    (capslock_args goos goarch imports "compare"
       (filepath_Join w root "caps.lock") custom noBuiltin) None
  = {| cmd_err := None; cmd_stdout := out; cmd_stderr := errtxt |} ->
  let run := analyse w goos goarch ignore module false false stdlib verbose
               noBuiltin custom in
  stdout_of (fst run) = out /\
  (out <> "" -> snd run = Exit 4) /\
  (out = "" -> snd run = Exit 0).
Proof.
  intros Hres Hrun run. subst run.
  rewrite (analyse_resolved _ _ _ _ _ _ _ _ _ _ _ _ _ _ Hres).
  unfold analyse_dispatch. rewrite capslock_compare. cbv zeta. rewrite Hrun.
  cbn [cmd_err cmd_stdout bind Buffer_String Buffer_Len Print emit ret app fst snd].
  split; [| split].
  - assert (Hev : Forall resolution_event evs).
    { pose proof (resolve_events w goos goarch ignore module stdlib) as H.
      by rewrite Hres in H. }
    destruct (negb _); cbn [exit fst app].
    all: rewrite stdout_of_app, (resolution_events_stdout evs Hev).
    all: cbn [stdout_of]; rewrite string_app_nil_r; reflexivity.
  - intros Hne. destruct (Z.eqb_spec (Z.of_nat (String.length out)) 0) as [H0 | H0].
    + exfalso. apply Hne, string_length_zero. lia.
    + done.
  - intros ->. done.
Qed.

Lemma resolve_w_ok :
  resolve w_ok "linux" "amd64" ignore_B true false
  = (evs_ok, Val ("/work", ["A"])).
Proof. vm_compute. reflexivity. Qed.

Lemma C1_witness :
  let run := analyse w_ok "linux" "amd64" ignore_B true false false
               false false false "" in
  stdout_of (fst run) = "diff" /\
  ("diff" <> "" -> snd run = Exit 4) /\
  ("diff" = "" -> snd run = Exit 0).
Proof.
  apply (C1_compare_echo_and_status w_ok "linux" "amd64" ignore_B
           true false false false "" evs_ok "/work" ["A"] "diff" "").
  - exact resolve_w_ok.
  - vm_compute. reflexivity.
Defined.

Lemma capslock_args_format goos goarch pkgs format path custom noBuiltin :
  capslock_args goos goarch pkgs format path custom noBuiltin !! 5%nat = Some format.
Proof.
  unfold capslock_args.
  destruct (String.eqb format "compare"), (negb (String.eqb custom "")), noBuiltin;
    reflexivity.
Qed.


(** C7.  In writing-baseline mode ([-lock] without [-imports]), once the
    imports are resolved: the analyzer is run in verbose format and its
    output written to [caps.summary], then it is run in json format and its
    output written to [caps.lock]; a failure of either run or either write
    gives status 1, and the second run is not started when the summary step
    failed; with [-v] the summary is written to standard output (followed by
    a line terminator). *)
Theorem C7_write_baseline (w : World) (goos goarch : string)
    (ignore : list Regexp) (module stdlib verbose noBuiltin : bool)
    (custom : string) (evs : list event) (root : string)
    (imports : list string) :
  resolve w goos goarch ignore module stdlib = (evs, Val (root, imports)) ->
  let sumPath := filepath_Join w root "caps.summary" in
  let lockPath := filepath_Join w root "caps.lock" in
  let sumArgs := capslock_args goos goarch imports "verbose" sumPath custom noBuiltin in
  let lockArgs := capslock_args goos goarch imports "json" lockPath custom noBuiltin in
  let r1 := cmd_Run w "capslock" sumArgs None in
  let r2 := cmd_Run w "capslock" lockArgs None in
  let wr1 := os_WriteFile w sumPath (cmd_stdout r1) 436 in
  let wr2 := os_WriteFile w lockPath (cmd_stdout r2) 436 in
  let run := analyse w goos goarch ignore module false true stdlib verbose
               noBuiltin custom in
  (cmd_err r1 = None -> wr1 = None -> cmd_err r2 = None -> wr2 = None ->
   run = (evs ++ [Exec "capslock" sumArgs None;
                  WriteFileCall sumPath (cmd_stdout r1) 436]
              ++ (if verbose then [Stdout (cmd_stdout r1 +:+ nl)] else [])
              ++ [Exec "capslock" lockArgs None;
                  WriteFileCall lockPath (cmd_stdout r2) 436],
          Exit 0)) /\
  (cmd_err r1 <> None \/ wr1 <> None \/ cmd_err r2 <> None \/ wr2 <> None ->
   snd run = Exit 1) /\
  (cmd_err r1 <> None \/ wr1 <> None ->
   Forall (fun e => e <> Exec "capslock" lockArgs None) (fst run)) /\
  (verbose = true -> cmd_err r1 = None -> wr1 = None ->
   stdout_of (fst run) = cmd_stdout r1 +:+ nl).
Proof.
  intros Hres sumPath lockPath sumArgs lockArgs r1 r2 wr1 wr2 run.
  assert (Hev : Forall resolution_event evs).
  { pose proof (resolve_events w goos goarch ignore module stdlib) as H.
    by rewrite Hres in H. }
  assert (Hne : sumArgs <> lockArgs).
  { intros Heq. pose proof (capslock_args_format goos goarch imports "verbose"
                              sumPath custom noBuiltin) as H1.
    fold sumArgs in H1. rewrite Heq in H1. unfold lockArgs in H1.
    rewrite capslock_args_format in H1. discriminate. }
  assert (Hnolock : Forall (fun e => e <> Exec "capslock" lockArgs None) evs).
  { eapply Forall_impl; [exact Hev |]. intros e He ->. simpl in He. discriminate. }
  assert (Hrun : run =
    (evs ++ fst (analyse_dispatch w goos goarch root imports false true verbose
                   noBuiltin custom),
     snd (analyse_dispatch w goos goarch root imports false true verbose
            noBuiltin custom))).
  { subst run. by apply analyse_resolved. }
  clearbody run. subst run. unfold analyse_dispatch.
  rewrite !capslock_write by reflexivity.
  fold sumPath lockPath. fold sumArgs lockArgs. fold r1 r2. fold wr1 wr2.
  destruct (cmd_err r1) as [e1 |] eqn:E1; cbn [bind fst snd app Eprintln emit exit].
  { split; [done |]. split; [done |]. split; [| done].
    intros _. apply Forall_app. split; [done |].
    repeat constructor; try done. intros [= ?]. by apply Hne. }
  destruct wr1 as [e1 |] eqn:W1; cbn [bind fst snd app Eprintln emit exit].
  { split; [done |]. split; [done |]. split; [| done].
    intros _. apply Forall_app. split; [done |].
    repeat constructor; try done. intros [= ?]. by apply Hne. }
  assert (Hout : forall tl, Forall (fun e => match e with Stdout _ => False | _ => True end) tl ->
            stdout_of (evs ++ [Exec "capslock" sumArgs None;
                               WriteFileCall sumPath (cmd_stdout r1) 436;
                               Stdout (cmd_stdout r1 +:+ nl)] ++ tl)
            = cmd_stdout r1 +:+ nl).
  { intros tl Htl. rewrite stdout_of_app, (resolution_events_stdout evs Hev).
    cbn [app stdout_of]. change ("" +:+ ?x) with x.
    assert (stdout_of tl = "") as ->.
    { induction Htl as [| e tl He _ IH]; [done |]. by destruct e. }
    by rewrite string_app_nil_r. }
  destruct (cmd_err r2) as [e2 |] eqn:E2, wr2 as [e2' |] eqn:W2, verbose;
    cbn [bind fst snd app Println Eprintln emit exit ret Buffer_String].
  all: refine (conj _ (conj _ (conj _ _))).
  all: try done.
  all: try (intros [? | [? | [? | ?]]]; done).
  all: try (intros [? | ?]; done).
  all: intros _ _ _; rewrite <- ?app_assoc; apply Hout; repeat constructor.
Qed.

Lemma C7_witness :
  let run := analyse w_ok "linux" "amd64" ignore_B true false true false true
               false "" in
  snd run = Exit 0 /\ stdout_of (fst run) = "summary" +:+ nl.
Proof.
  pose proof (C7_write_baseline w_ok "linux" "amd64" ignore_B true false true
                false "" evs_ok "/work" ["A"] resolve_w_ok) as (H1 & _ & _ & H4).
  split.
  - rewrite H1; reflexivity.
  - apply H4; reflexivity.
Defined.

(** C8.  With [-imports] the run never starts the analyzer and never writes a
    file, whatever happens; when the imports are resolved it prints them in
    increasing order, one per line, and ends with status 0. *)
Theorem C8_listing_only (w : World) (goos goarch : string)
    (ignore : list Regexp) (module lock stdlib verbose noBuiltin : bool)
    (custom : string) :
  let run := analyse w goos goarch ignore module true lock stdlib verbose
               noBuiltin custom in
  Forall (fun e => is_baseline_event e = false) (fst run) /\
  (forall evs root imports,
     resolve w goos goarch ignore module stdlib = (evs, Val (root, imports)) ->
     run = (evs ++ map (fun i => Stdout (i +:+ nl)) (sort_Strings imports),
            Exit 0) /\
     Sorted String.le (sort_Strings imports) /\
     sort_Strings imports ≡ₚ imports).
Proof.
  intros run.
  assert (Hlist : forall evs root imports,
     resolve w goos goarch ignore module stdlib = (evs, Val (root, imports)) ->
     run = (evs ++ map (fun i => Stdout (i +:+ nl)) (sort_Strings imports),
            Exit 0)).
  { intros evs root imports Hres. subst run.
    rewrite (analyse_resolved _ _ _ _ _ _ _ _ _ _ _ _ _ _ Hres).
    unfold analyse_dispatch. rewrite print_lines_spec. cbn [bind exit fst snd].
    by rewrite app_nil_r. }
  split.
  - pose proof (resolve_events w goos goarch ignore module stdlib) as Hev.
    apply resolution_events_no_baseline in Hev.
    destruct (resolve w goos goarch ignore module stdlib) as [evs r] eqn:Hres.
    destruct r as [[root imports] | c |].
    + rewrite (Hlist _ _ _ eq_refl). cbn [fst] in *.
      apply Forall_app. split; [done |].
      apply Forall_forall. intros e He.
      apply list_elem_of_fmap in He as (i & -> & _). done.
    + subst run. unfold analyse. by rewrite Hres.
    + subst run. unfold analyse. by rewrite Hres.
  - intros evs root imports Hres. split; [by eapply Hlist |].
    split; [apply sort_Strings_sorted | apply sort_Strings_perm].
Qed.

(** ** The [-packages] argument *)





Lemma range_ok_id (gomod : CmdResult) pkgs diff :
  range_ok (scenario gomod pkgs diff id).
Proof. intros l. reflexivity. Qed.

Lemma range_ok_rev (gomod : CmdResult) pkgs diff :
  range_ok (scenario gomod pkgs diff (@rev string)).
Proof. intros l. simpl. by rewrite reverse_Permutation || apply Permutation_sym, Permutation_rev. Qed.

Lemma resolve_w_fwd :
  resolve w_fwd "linux" "amd64" [] true false
  = ([Exec "go" ["env"; "GOMOD"] None;
      LoadCall {| cfg_Tests := false; cfg_Mode := 8200; cfg_Env := env_ok |}
               "/work/...";
      Exec "go" ["list"; "-f={{.Standard}}"; "a"] (Some env_ok);
      Exec "go" ["list"; "-f={{.Standard}}"; "b"] (Some env_ok)],
     Val ("/work", ["a"; "b"])).
Proof. vm_compute. reflexivity. Qed.

Lemma resolve_w_rev :
  resolve w_rev "linux" "amd64" [] true false
  = ([Exec "go" ["env"; "GOMOD"] None;
      LoadCall {| cfg_Tests := false; cfg_Mode := 8200; cfg_Env := env_ok |}
               "/work/...";
      Exec "go" ["list"; "-f={{.Standard}}"; "b"] (Some env_ok);
      Exec "go" ["list"; "-f={{.Standard}}"; "a"] (Some env_ok)],
     Val ("/work", ["b"; "a"])).
Proof. vm_compute. reflexivity. Qed.



Lemma C8_witness :
  analyse w_rev "linux" "amd64" [] true true true false false false ""
  = (fst (resolve w_rev "linux" "amd64" [] true false)
       ++ [Stdout ("a" +:+ nl); Stdout ("b" +:+ nl)],
     Exit 0).
Proof.
  pose proof (C8_listing_only w_rev "linux" "amd64" [] true true false
                false false "") as [_ H].
  destruct (H _ _ _ resolve_w_rev) as [H1 _].
  rewrite H1. reflexivity.
Defined.

(** ** The module root *)

Lemma moduleRoot_trace w :
  fst (moduleRoot w) = [Exec "go" ["env"; "GOMOD"] None].
Proof.
  unfold moduleRoot. cbn [emit bind].
  destruct (cmd_err _); [done |].
  destruct (String.eqb _ ""); [done |]. by destruct (String.eqb _ _).
Qed.

Lemma moduleRoot_eq w x :
  snd (moduleRoot w) = Val x ->
  moduleRoot w = ([Exec "go" ["env"; "GOMOD"] None], Val x).
Proof.
  intros H. pose proof (moduleRoot_trace w) as Ht.
  destruct (moduleRoot w) as [evs r]. simpl in *. by subst.
Qed.

Lemma analyse_root_failure w module r valid e :
  snd (moduleRoot w) = Val (r, valid, Some e) ->
  analyse_root w module =
  ([Exec "go" ["env"; "GOMOD"] None; Stderr (e +:+ nl)],
   Exit (if valid then invocationError else internalError)).
Proof.
  intros H. unfold analyse_root. rewrite (moduleRoot_eq _ _ H).
  cbn [bind]. by destruct valid.
Qed.

(** The failure of the module-root query ends the whole run. *)
Lemma analyse_root_exit w goos goarch ignore module list_ lock stdlib verbose
    noBuiltin custom evs c :
  analyse_root w module = (evs, Exit c) ->
  analyse w goos goarch ignore module list_ lock stdlib verbose noBuiltin custom
  = (evs, Exit c).
Proof. intros H. unfold analyse, resolve. by rewrite H. Qed.

Lemma analyse_load_trace w goos goarch root :
  exists cfg rest,
    fst (analyse_load w goos goarch root)
    = LoadCall cfg (filepath_Join w root "...") :: rest.
Proof.
  unfold analyse_load. cbn [emit bind].
  destruct (packages_Load _ _ _) as [pkgs | e]; cbn [bind emit exit].
  - destruct (bind (PrintErrors w pkgs) _) as [evs r] eqn:Hb.
    cbn [app fst]. eauto.
  - cbn [app fst]. eauto.
Qed.

(** C2 (amended).  The module-root query runs first in every invocation.
    When it succeeds: with [-mod=false] the root is the working directory
    (the packages below it are loaded, and the module root is not used);
    with [-mod] the root is the module root.  When it fails the run ends
    with status 2 or 1, whether or not [-mod] is set. *)
Theorem C2_root_selection (w : World) (goos goarch : string)
    (ignore : list Regexp) (stdlib : bool) :
  (forall mroot valid cwd,
     snd (moduleRoot w) = Val (mroot, valid, None) ->
     os_Getwd w = inl cwd ->
     analyse_root w false = ([Exec "go" ["env"; "GOMOD"] None; GetwdCall], Val cwd) /\
     analyse_root w true = ([Exec "go" ["env"; "GOMOD"] None], Val mroot) /\
     forall evs root imports,
       resolve w goos goarch ignore false stdlib = (evs, Val (root, imports)) ->
       root = cwd /\ exists cfg, LoadCall cfg (filepath_Join w cwd "...") ∈ evs) /\
  (forall module list_ lock verbose noBuiltin custom r valid e,
     snd (moduleRoot w) = Val (r, valid, Some e) ->
     analyse w goos goarch ignore module list_ lock stdlib verbose noBuiltin custom
     = ([Exec "go" ["env"; "GOMOD"] None; Stderr (e +:+ nl)],
        Exit (if valid then 2 else 1))).
Proof.
  split.
  - intros mroot valid cwd Hm Hwd.
    assert (H0 : analyse_root w false
                 = ([Exec "go" ["env"; "GOMOD"] None; GetwdCall], Val cwd)).
    { unfold analyse_root. rewrite (moduleRoot_eq _ _ Hm). cbn [bind negb emit].
      by rewrite Hwd. }
    split; [exact H0 |]. split.
    { unfold analyse_root. by rewrite (moduleRoot_eq _ _ Hm). }
    intros evs root imports Hres.
    apply resolve_inv in Hres as (e0 & e1 & pkgs & e2 & imps & e3 & Hr & Hl & _ & _ & ->).
    rewrite H0 in Hr. injection Hr as <- <-. split; [done |].
    destruct (analyse_load_trace w goos goarch cwd) as (cfg & rest & Ht).
    rewrite Hl in Ht. cbn [fst] in Ht. subst e1. exists cfg.
    apply elem_of_app. right. apply elem_of_app. left. by left.
  - intros module list_ lock verbose noBuiltin custom r valid e Hm.
    apply analyse_root_exit. rewrite (analyse_root_failure _ _ _ _ _ Hm).
    by destruct valid.
Qed.

Lemma C2_witness :
  analyse_root w_ok false
  = ([Exec "go" ["env"; "GOMOD"] None; GetwdCall], Val "/work/sub") /\
  analyse_root w_ok true = ([Exec "go" ["env"; "GOMOD"] None], Val "/work").
Proof.
  destruct (C2_root_selection w_ok "linux" "amd64" [] false) as [H _].
  destruct (H "/work" true "/work/sub") as (H1 & H2 & _).
  - vm_compute. reflexivity.
  - reflexivity.
  - split; [exact H1 | exact H2].
Defined.

Lemma main_w_nomod :
  main w_nomod (with_module default_flags false)
  = ([Exec "go" ["env"; "GOMOD"] None; Stderr ("no go.mod" +:+ nl)], Exit 2).
Proof. vm_compute. reflexivity. Qed.

(** C2 as stated fails: with [-mod=false], valid flags and a working
    directory that can be read, a directory without [go.mod] above it ends
    the run with status 2 before any package is loaded. *)
Lemma C2_counterexample :
  ~ (forall (w : World) (fl : Flags) (cwd : string),
       f_module fl = false ->
       f_noBuiltin fl = false ->
       snd (set_regexps w (f_ignore fl)) = None ->
       os_Getwd w = inl cwd ->
       exists cfg, LoadCall cfg (filepath_Join w cwd "...") ∈ fst (main w fl)).
Proof.
  intros H.
  destruct (H w_nomod (with_module default_flags false) "/work/sub"
              eq_refl eq_refl eq_refl eq_refl) as [cfg Hin].
  rewrite main_w_nomod in Hin. cbn [fst] in Hin.
  apply elem_of_cons in Hin as [Hin | Hin]; [discriminate |].
  apply elem_of_cons in Hin as [Hin | Hin]; [discriminate |].
  by apply elem_of_nil in Hin.
Qed.

(** C3 (amended).  The three ways the module-root query fails: when the
    [go env GOMOD] command itself fails the status is 1; when it reports
    that the tool is not in module-aware mode (empty output) the status is
    2; when it reports that there is no [go.mod] the status is 2.  Each
    writes one diagnostic on standard error and nothing else happens. *)
Theorem C3_module_root_status (w : World) (goos goarch : string)
    (ignore : list Regexp)
    (module list_ lock stdlib verbose noBuiltin : bool) (custom : string) :
  let r := cmd_Run w "go" ["env"; "GOMOD"] None in
  let gomod := strings_TrimSpace w (cmd_stdout r) in
  let run := analyse w goos goarch ignore module list_ lock stdlib verbose
               noBuiltin custom in
  (forall e, cmd_err r = Some e ->
     run = ([Exec "go" ["env"; "GOMOD"] None;
             Stderr (("go env " +:+ e +:+ ": " +:+ cmd_stderr r) +:+ nl)],
            Exit 1)) /\
  (cmd_err r = None -> gomod = "" ->
     run = ([Exec "go" ["env"; "GOMOD"] None;
             Stderr ("go tool not running in module mode" +:+ nl)],
            Exit 2)) /\
  (cmd_err r = None -> gomod <> "" -> gomod = os_DevNull w ->
     run = ([Exec "go" ["env"; "GOMOD"] None;
             Stderr ("no go.mod" +:+ nl)],
            Exit 2)).
Proof.
  intros r gomod run. subst run.
  split; [| split].
  - intros e He. apply analyse_root_exit.
    rewrite (analyse_root_failure w module "" false
               ("go env " +:+ e +:+ ": " +:+ cmd_stderr r)); [done |].
    unfold moduleRoot. fold r. rewrite He. reflexivity.
  - intros He Hg. apply analyse_root_exit.
    rewrite (analyse_root_failure w module "" true
               "go tool not running in module mode"); [done |].
    unfold moduleRoot. fold r. rewrite He. cbv zeta. fold gomod. rewrite Hg.
    reflexivity.
  - intros He Hne Hg. apply analyse_root_exit.
    rewrite (analyse_root_failure w module "" true "no go.mod"); [done |].
    unfold moduleRoot. fold r. rewrite He. cbv zeta. fold gomod.
    apply String.eqb_neq in Hne. rewrite Hne.
    apply String.eqb_eq in Hg. rewrite Hg. reflexivity.
Qed.

Lemma C3_witness :
  analyse w_gopath "linux" "amd64" [] true false false false false false ""
  = ([Exec "go" ["env"; "GOMOD"] None;
      Stderr ("go tool not running in module mode" +:+ nl)],
     Exit 2).
Proof.
  apply (C3_module_root_status w_gopath "linux" "amd64" [] true false false
           false false false ""); reflexivity.
Defined.

(** C3 as stated fails: the [go] tool answers the query with an empty
    line (it is not in module-aware mode) and the run ends with status 2,
    not with the internal-error status 1. *)
Lemma C3_counterexample :
  ~ (forall (w : World) (fl : Flags),
       f_noBuiltin fl = false ->
       snd (set_regexps w (f_ignore fl)) = None ->
       cmd_err (cmd_Run w "go" ["env"; "GOMOD"] None) = None ->
       strings_TrimSpace w (cmd_stdout (cmd_Run w "go" ["env"; "GOMOD"] None)) = "" ->
       snd (main w fl) = Exit 1).
Proof.
  intros H.
  specialize (H w_gopath default_flags eq_refl eq_refl eq_refl eq_refl).
  vm_compute in H. discriminate.
Qed.

(** C5.  An import path that one of the compiled [-i] patterns matches is
    not among the import paths to analyse, whether or not the standard
    library is included and whatever the classification of the path. *)
Theorem C5_ignored_import_excluded (w : World) (P : gmap string bool)
    (ignorer : list Regexp) (goos goarch : string) (module stdlib : bool)
    (evs : list event) (root : string) (imports : list string)
    (p : string) (re : Regexp) (I : string) :
  range_ok w ->
  set_regexps w P = (ignorer, None) ->
  p ∈ dom P ->
  regexp_Compile w p = inl re ->
  regexp_MatchString w re I = true ->
  resolve w goos goarch ignorer module stdlib = (evs, Val (root, imports)) ->
  I ∉ imports.
Proof.
  intros Hw Hre Hp Hc Hm Hres HI.
  assert (Hig : matchers_match w ignorer I = true).
  { apply matchers_match_true. exists re. split; [| done].
    by eapply set_regexps_complete. }
  apply resolve_inv in Hres as (e0 & e1 & pkgs & e2 & imps & e3 & _ & _ & Hcol & Hfil & _).
  destruct (analysis_target_origin _ _ _ _ _ _ _ _ _ _ _ Hcol Hfil HI)
    as (pkg & m & _ & _ & Hno & _).
  congruence.
Qed.

Lemma C5_witness : "B-ignored" ∉ ["A"].
Proof.
  apply (C5_ignored_import_excluded w_ok (set_Set ∅ "B") ignore_B "linux" "amd64"
           true false evs_ok "/work" ["A"] "B" {| expr := "B" |} "B-ignored").
  - apply range_ok_id.
  - vm_compute. reflexivity.
  - apply elem_of_dom. exists true. vm_compute. reflexivity.
  - reflexivity.
  - vm_compute. reflexivity.
  - exact resolve_w_ok.
Defined.


Lemma collect_w_ok :
  analyse_collect w_ok ignore_B pkgs_ok
  = ([], Val (<["A" := ["m/p"]]> (<["fmt" := ["m/p"]]> ∅))).
Proof. vm_compute. reflexivity. Qed.

Lemma collect_w_two :
  analyse_collect w_two [] pkgs_two = ([], Val (<["b/x" := ["a/p"]]> ∅)).
Proof. vm_compute. reflexivity. Qed.

(** ** Panics *)

Lemma bind_not_Panic_Val {A B} (m : M A) (f : A -> M B) :
  snd m <> Panic ->
  (forall e a, m = (e, Val a) -> snd (f a) <> Panic) ->
  snd (bind m f) <> Panic.
Proof.
  destruct m as [e1 [a | c |]]; simpl; intros H1 H2; try done.
  specialize (H2 e1 a eq_refl). by destruct (f a).
Qed.

Ltac no_panic_step :=
  match goal with
  | |- snd (bind _ _) <> Panic => apply bind_not_Panic; [| intros ?]
  | |- snd (emit _) <> Panic => done
  | |- snd (Eprintln _) <> Panic => done
  | |- snd (Println _) <> Panic => done
  | |- snd (Print _) <> Panic => done
  | |- snd (ret _) <> Panic => done
  | |- snd (exit _) <> Panic => done
  | |- snd (match ?x with _ => _ end) <> Panic => destruct x
  | |- snd (if ?b then _ else _) <> Panic => destruct b
  | |- snd (let '(_, _) := ?x in _) <> Panic => destruct x
  end.

Lemma moduleRoot_no_panic w : snd (moduleRoot w) <> Panic.
Proof. unfold moduleRoot. repeat no_panic_step. Qed.

Lemma analyse_root_no_panic w module : snd (analyse_root w module) <> Panic.
Proof.
  unfold analyse_root. apply bind_not_Panic; [apply moduleRoot_no_panic |].
  intros [[root valid] err]. repeat no_panic_step.
Qed.

Lemma PrintErrors_no_panic w pkgs : snd (PrintErrors w pkgs) <> Panic.
Proof.
  unfold PrintErrors. apply bind_not_Panic; [| intros; no_panic_step].
  induction (packages_PrintErrors w pkgs) as [| e l IH]; repeat no_panic_step.
  exact IH.
Qed.

Lemma analyse_load_no_panic w goos goarch root :
  snd (analyse_load w goos goarch root) <> Panic.
Proof.
  unfold analyse_load. no_panic_step; [no_panic_step |].
  no_panic_step; [| repeat no_panic_step].
  apply bind_not_Panic; [apply PrintErrors_no_panic |]. intros. repeat no_panic_step.
Qed.

Lemma analyse_load_Val w goos goarch root e pkgs :
  analyse_load w goos goarch root = (e, Val pkgs) ->
  exists cfg pattern, packages_Load w cfg pattern = inl pkgs.
Proof.
  unfold analyse_load. intros H.
  apply bind_Val_inv in H as (e1 & [] & e2 & _ & H & _).
  destruct (packages_Load w _ _) as [pkgs' | err] eqn:Hl.
  - apply bind_Val_inv in H as (e3 & n & e4 & _ & H & _).
    destruct (negb (n =? 0)); [done |]. injection H as _ <-. eauto.
  - apply bind_Val_inv in H as (e3 & [] & e4 & _ & H & _). done.
Qed.

Lemma collect_pkg_no_panic w ignore pkg keys imps :
  pkg_Module pkg <> None -> snd (collect_pkg w ignore pkg keys imps) <> Panic.
Proof.
  intros Hm. revert imps.
  induction keys as [| imp keys IH]; intros imps; cbn [collect_pkg]; [done |].
  destruct (pkg_Module pkg); [| done].
  destruct (strings_HasPrefix _ _); [apply IH |].
  destruct (matchers_match _ _ _); apply IH.
Qed.

Lemma collect_pkgs_no_panic w ignore pkgs imps :
  (forall pkg, pkg ∈ pkgs -> pkg_Module pkg <> None) ->
  snd (collect_pkgs w ignore pkgs imps) <> Panic.
Proof.
  revert imps. induction pkgs as [| pkg pkgs IH]; intros imps Hall;
    cbn [collect_pkgs]; [done |].
  apply bind_not_Panic.
  - apply collect_pkg_no_panic, Hall. by left.
  - intros imps'. apply IH. intros p Hp. apply Hall. by right.
Qed.

Lemma isStdlib_no_panic w p goos goarch : snd (isStdlib w p goos goarch) <> Panic.
Proof.
  unfold isStdlib. no_panic_step; [no_panic_step |].
  destruct (cmd_err _); [| no_panic_step].
  destruct (strings_Cut _ _) as [[note after] ok]. repeat no_panic_step.
Qed.

Lemma filter_loop_no_panic w goos goarch stdlib kvs imports :
  snd (filter_loop w goos goarch stdlib kvs imports) <> Panic.
Proof.
  revert imports.
  induction kvs as [| [i by_] kvs IH]; intros imports; cbn [filter_loop]; [done |].
  destruct stdlib; cbn [negb]; [apply IH |].
  apply bind_not_Panic; [apply isStdlib_no_panic |].
  intros [isStd [e |]]; [repeat no_panic_step |].
  destruct isStd; apply IH.
Qed.

Lemma print_lines_no_panic l : snd (print_lines l) <> Panic.
Proof. by rewrite print_lines_spec. Qed.

Lemma analyse_dispatch_no_panic w goos goarch root imports list_ lock verbose
    noBuiltin custom :
  snd (analyse_dispatch w goos goarch root imports list_ lock verbose
         noBuiltin custom) <> Panic.
Proof.
  unfold analyse_dispatch. destruct list_; [| destruct lock].
  - rewrite print_lines_spec. done.
  - rewrite !capslock_write by reflexivity.
    destruct (cmd_err (cmd_Run w "capslock" (capslock_args _ _ _ "verbose" _ _ _) _));
      [| destruct (os_WriteFile w _ _ _)];
      try destruct (cmd_err (cmd_Run w "capslock" (capslock_args _ _ _ "json" _ _ _) _));
      try destruct (os_WriteFile w (filepath_Join w root "caps.lock") _ _);
      destruct verbose; done.
  - rewrite capslock_compare. cbv zeta.
    destruct (cmd_err _);
      cbn [bind fst snd app Print Eprintln emit exit ret Buffer_Len Buffer_String];
      [done |]. by destruct (negb _).
Qed.

(** [collect_pkg] ends in a map or in a panic, and it panics on the first
    import of a package without module information. *)
Lemma collect_pkg_nil_module w ignore pkg keys imps :
  pkg_Module pkg = None -> keys <> [] ->
  collect_pkg w ignore pkg keys imps = ([], Panic).
Proof.
  intros Hm Hk. destruct keys as [| imp keys]; [done |].
  cbn [collect_pkg]. by rewrite Hm.
Qed.

Lemma collect_pkg_outcome w ignore pkg keys imps :
  (exists imps', collect_pkg w ignore pkg keys imps = ([], Val imps')) \/
  collect_pkg w ignore pkg keys imps = ([], Panic).
Proof.
  revert imps. induction keys as [| imp keys IH]; intros imps; cbn [collect_pkg].
  - left. by exists imps.
  - destruct (pkg_Module pkg); [| by right].
    destruct (strings_HasPrefix _ _); [apply IH |].
    destruct (matchers_match _ _ _); apply IH.
Qed.

Lemma collect_pkgs_nil_module w ignore pkgs imps pkg :
  range_ok w ->
  pkg ∈ pkgs -> pkg_Module pkg = None -> pkg_Imports pkg <> ∅ ->
  collect_pkgs w ignore pkgs imps = ([], Panic).
Proof.
  intros Hw Hin Hm Hne. revert imps.
  induction pkgs as [| q pkgs IH]; intros imps.
  { by apply elem_of_nil in Hin. }
  cbn [collect_pkgs].
  destruct (collect_pkg_outcome w ignore q
              (range_order w (elements (pkg_Imports q))) imps) as [[imps' Hq] | Hq];
    rewrite Hq; [| done].
  apply elem_of_cons in Hin as [<- | Hin].
  - rewrite collect_pkg_nil_module in Hq; [done | done |].
    intros Hnil. apply Hne. apply leibniz_equiv, elements_empty_inv.
    apply Permutation_nil_r. by rewrite <- (Hw (elements (pkg_Imports pkg))), Hnil.
  - cbn [bind]. by rewrite (IH Hin imps').
Qed.

(** C10.  The collection loop reads the module path of a package without
    checking that the package has module information.  When every loaded
    package has it the program does not panic.  When a loaded package that
    has at least one import lacks it, the run panics as soon as the packages
    are loaded: no status is returned and nothing is written about it.  The
    world [w_nilmod] is such a run. *)
Theorem C10_module_metadata_required :
  (forall (w : World) (fl : Flags),
     (forall cfg pattern pkgs pkg,
        packages_Load w cfg pattern = inl pkgs -> pkg ∈ pkgs ->
        pkg_Module pkg <> None) ->
     snd (main w fl) <> Panic) /\
  (forall (w : World) (goos goarch : string) (ignore : list Regexp)
          (module list_ lock stdlib verbose noBuiltin : bool) (custom : string)
          (e0 e1 : list event) (root : string)
          (pkgs : list packages_Package) (pkg : packages_Package),
     range_ok w ->
     analyse_root w module = (e0, Val root) ->
     analyse_load w goos goarch root = (e1, Val pkgs) ->
     pkg ∈ pkgs -> pkg_Module pkg = None -> pkg_Imports pkg <> ∅ ->
     analyse w goos goarch ignore module list_ lock stdlib verbose noBuiltin custom
     = (e0 ++ e1, Panic)) /\
  main w_nilmod default_flags
  = ([Exec "go" ["env"; "GOMOD"] None;
      LoadCall {| cfg_Tests := false; cfg_Mode := 8200; cfg_Env := env_ok |}
               "/work/..."],
     Panic).
Proof.
  split; [| split].
  - intros w fl Hall. unfold main. apply bind_not_Panic; [| done].
    unfold Main. destruct (set_regexps w (f_ignore fl)) as [ignorer err].
    destruct (f_noBuiltin fl && String.eqb (f_custom fl) ""); [done |].
    destruct err as [e |]; [done |].
    unfold analyse. apply bind_not_Panic.
    + unfold resolve.
      apply bind_not_Panic; [apply analyse_root_no_panic | intros root].
      apply bind_not_Panic_Val; [apply analyse_load_no_panic | intros e1 pkgs Hl].
      apply analyse_load_Val in Hl as (cfg & pattern & Hl).
      apply bind_not_Panic; [| intros imps].
      { apply collect_pkgs_no_panic. intros pkg Hin. by eapply Hall. }
      apply bind_not_Panic; [apply filter_loop_no_panic | done].
    + intros [root imports]. apply analyse_dispatch_no_panic.
  - intros w goos goarch ignore module list_ lock stdlib verbose noBuiltin custom
           e0 e1 root pkgs pkg Hw Hr Hl Hin Hm Hne.
    unfold analyse, resolve. rewrite Hr. cbn [bind]. rewrite Hl. cbn [bind].
    unfold analyse_collect.
    rewrite (collect_pkgs_nil_module w ignore pkgs ∅ pkg Hw Hin Hm Hne).
    cbn [bind]. by rewrite !app_nil_r.
  - vm_compute. reflexivity.
Qed.

Lemma C10_witness :
  analyse w_nilmod "linux" "amd64" [] true false false false false false ""
  = ([Exec "go" ["env"; "GOMOD"] None] ++
     [LoadCall {| cfg_Tests := false; cfg_Mode := 8200; cfg_Env := env_ok |}
               "/work/..."],
     Panic).
Proof.
  apply (proj1 (proj2 C10_module_metadata_required) w_nilmod "linux" "amd64" []
           true false false false false false "" _ _ "/work" pkgs_nilmod
           (mkpkg "p" ["a"] None)).
  - apply range_ok_id.
  - vm_compute. reflexivity.
  - vm_compute. reflexivity.
  - left.
  - reflexivity.
  - intros H. assert (Ha : "a" ∈ pkg_Imports (mkpkg "p" ["a"] None)).
    { apply elem_of_list_to_set. left. }
    rewrite H in Ha. by apply elem_of_empty in Ha.
Defined.

(** * Further properties of the code *)

(** ** The collected map, exactly *)

Lemma bool_decide_elem_cons_ne (I imp : string) (keys : list string) :
  I <> imp -> bool_decide (I ∈ imp :: keys) = bool_decide (I ∈ keys).
Proof.
  intros Hne. apply bool_decide_ext. rewrite elem_of_cons.
  split; [intros [? | ?]; done | by right].
Qed.

Lemma collect_pkg_lookup w ignore pkg keys (imps imps' : gmap string (list string)) evs I :
  NoDup keys ->
  collect_pkg w ignore pkg keys imps = (evs, Val imps') ->
  imps' !! I =
  if bool_decide (I ∈ keys) &&
     match pkg_Module pkg with
     | Some m => negb (strings_HasPrefix I (mod_Path m)) &&
                 negb (matchers_match w ignore I)
     | None => false
     end
  then Some (default [] (imps !! I) ++ [pkg_String pkg])
  else imps !! I.
Proof.
  intros Hnd. revert imps.
  induction Hnd as [| imp keys Hnotin Hnd IH]; intros imps; cbn [collect_pkg].
  - intros [= _ <-]. done.
  - destruct (pkg_Module pkg) as [m |] eqn:Hm; [| done].
    assert (Hskip : forall b, b = true ->
              (strings_HasPrefix imp (mod_Path m) = true \/
               matchers_match w ignore imp = true) ->
              collect_pkg w ignore pkg keys imps = (evs, Val imps') ->
              imps' !! I =
              if bool_decide (I ∈ imp :: keys) &&
                 (negb (strings_HasPrefix I (mod_Path m)) &&
                  negb (matchers_match w ignore I))
              then Some (default [] (imps !! I) ++ [pkg_String pkg])
              else imps !! I).
    { intros b _ Hor H. rewrite (IH _ H).
      destruct (decide (I = imp)) as [-> | Hne].
      - rewrite (bool_decide_eq_false_2 _ Hnotin).
        rewrite bool_decide_eq_true_2 by left.
        by destruct Hor as [-> | ->]; cbn; rewrite ?andb_false_r.
      - by rewrite (bool_decide_elem_cons_ne _ _ _ Hne). }
    destruct (strings_HasPrefix imp (mod_Path m)) eqn:Hpre.
    { apply (Hskip true eq_refl). by left. }
    destruct (matchers_match w ignore imp) eqn:Hig.
    { apply (Hskip true eq_refl). by right. }
    intros H. rewrite (IH _ H).
    destruct (decide (I = imp)) as [-> | Hne].
    + rewrite (bool_decide_eq_false_2 _ Hnotin).
      rewrite bool_decide_eq_true_2 by left.
      rewrite Hpre, Hig. cbn. by rewrite lookup_insert_eq.
    + rewrite lookup_insert_ne by done.
      by rewrite (bool_decide_elem_cons_ne _ _ _ Hne).
Qed.

Lemma range_keys_NoDup w (X : gset string) :
  range_ok w -> NoDup (range_order w (elements X)).
Proof. intros Hw. rewrite (Hw (elements X)). apply NoDup_elements. Qed.

Lemma range_keys_elem w (X : gset string) I :
  range_ok w -> I ∈ range_order w (elements X) <-> I ∈ X.
Proof. intros Hw. rewrite (Hw (elements X)). apply elem_of_elements. Qed.

Lemma importers_cons w ignore I pkg pkgs :
  importers w ignore I (pkg :: pkgs) =
  if records w ignore I pkg then pkg_String pkg :: importers w ignore I pkgs
  else importers w ignore I pkgs.
Proof.
  unfold importers. rewrite filter_cons.
  destruct (records w ignore I pkg).
  - by rewrite decide_True.
  - by rewrite decide_False.
Qed.

Lemma collect_pkgs_lookup w ignore pkgs (imps imps' : gmap string (list string)) evs I :
  range_ok w ->
  collect_pkgs w ignore pkgs imps = (evs, Val imps') ->
  imps' !! I =
  match importers w ignore I pkgs with
  | [] => imps !! I
  | l => Some (default [] (imps !! I) ++ l)
  end.
Proof.
  intros Hw. revert imps evs.
  induction pkgs as [| pkg pkgs IH]; intros imps evs; cbn [collect_pkgs].
  - intros [= _ <-]. done.
  - intros H. apply bind_Val_inv in H as (e1 & imps1 & e2 & H1 & H2 & _).
    rewrite (IH _ _ H2).
    rewrite (collect_pkg_lookup _ _ _ _ _ _ _ I (range_keys_NoDup w _ Hw) H1).
    rewrite importers_cons. unfold records.
    rewrite (bool_decide_ext _ _ (range_keys_elem w (pkg_Imports pkg) I Hw)).
    destruct (bool_decide (I ∈ pkg_Imports pkg) && _) eqn:Hrec.
    + destruct (importers w ignore I pkgs) as [| x l]; simpl; [done |].
      by rewrite <- app_assoc.
    + done.
Qed.

(** ** The classification loop, exactly *)

Lemma isStdlib_spec w p goos goarch :
  isStdlib w p goos goarch =
  ([classify_event w goos goarch p],
   Val (match cmd_err (classify w goos goarch p) with
        | Some err =>
            (false,
             Some ("go list " +:+ err +:+ ": " +:+
                   (strings_Cut (cmd_stderr (classify w goos goarch p)) ";").1.1))
        | None => (is_std w goos goarch p, None)
        end)).
Proof.
  unfold isStdlib, classify_event, is_std, classify, classify_args.
  cbn [emit bind app].
  destruct (cmd_err _) as [err |]; [| done].
  unfold strings_Cut. by destruct (index 0 ";" _).
Qed.

Lemma filter_loop_all w goos goarch kvs imports :
  filter_loop w goos goarch true kvs imports = ([], Val (imports ++ kvs.*1)).
Proof.
  revert imports. induction kvs as [| [i by_] kvs IH]; intros imports;
    cbn [filter_loop negb].
  - by rewrite app_nil_r.
  - rewrite IH. cbn. by rewrite <- app_assoc.
Qed.

Lemma filter_loop_ok w goos goarch kvs imports :
  Forall (fun kv => cmd_err (classify w goos goarch kv.1) = None) kvs ->
  filter_loop w goos goarch false kvs imports =
  (classify_event w goos goarch <$> kvs.*1,
   Val (imports ++ filter (fun I => is_std w goos goarch I = false) kvs.*1)).
Proof.
  intros Hall. revert imports.
  induction Hall as [| [i by_] kvs Hi Hall IH]; intros imports;
    cbn [filter_loop negb].
  - by rewrite app_nil_r.
  - rewrite isStdlib_spec. cbn [fst] in Hi. rewrite Hi. cbn [bind].
    rewrite !fmap_cons, filter_cons. cbn [fst].
    destruct (is_std w goos goarch i) eqn:Hstd.
    + rewrite IH. cbn [app]. by rewrite decide_False.
    + rewrite IH. cbn [app]. rewrite decide_True by done.
      by rewrite <- app_assoc.
Qed.

Lemma filter_loop_fail w goos goarch pre I by_ post imports err :
  Forall (fun kv => cmd_err (classify w goos goarch kv.1) = None) pre ->
  cmd_err (classify w goos goarch I) = Some err ->
  filter_loop w goos goarch false (pre ++ (I, by_) :: post) imports =
  ((classify_event w goos goarch <$> pre.*1) ++
   [classify_event w goos goarch I;
    Stderr (("go list " +:+ err +:+ ": " +:+
             (strings_Cut (cmd_stderr (classify w goos goarch I)) ";").1.1)
            +:+ ": imported by " +:+ strings_Join by_ "," +:+ nl)],
   Exit internalError).
Proof.
  intros Hall HI. revert imports.
  induction Hall as [| [i b] pre Hi Hall IH]; intros imports;
    cbn [app filter_loop negb].
  - rewrite isStdlib_spec, HI. reflexivity.
  - rewrite isStdlib_spec. cbn [fst] in Hi. rewrite Hi. cbn [bind].
    rewrite !fmap_cons. cbn [fst].
    destruct (is_std w goos goarch i); rewrite IH; reflexivity.
Qed.

(** Splitting a list at the first element that fails a decidable test. *)
Lemma first_failure {A} (P : A -> Prop) `{!forall x, Decision (P x)} (l : list A) :
  Forall P l \/
  exists pre x post, l = pre ++ x :: post /\ Forall P pre /\ ~ P x.
Proof.
  induction l as [| a l IH]; [by left |].
  destruct (decide (P a)) as [Ha | Ha].
  - destruct IH as [IH | (pre & x & post & -> & Hpre & Hx)].
    + left. by constructor.
    + right. exists (a :: pre), x, post. split; [done |]. split; [| done].
      by constructor.
  - right. exists [], a, l. split; [done |]. split; [constructor | done].
Qed.

Lemma map_range_lookup w (m : gmap string (list string)) I by_ :
  (I, by_) ∈ map_range w m -> m !! I = Some by_.
Proof.
  unfold map_range. intros H. apply list_elem_of_omap in H as (k & _ & Hk).
  destruct (m !! k) as [v |] eqn:Hl; simpl in Hk; [| done].
  by injection Hk as <- <-.
Qed.

Lemma omap_lookup_keys (m : gmap string (list string)) (ks : list string) :
  (forall k, k ∈ ks -> k ∈ dom m) ->
  (omap (fun k => (fun v => (k, v)) <$> m !! k) ks).*1 = ks.
Proof.
  induction ks as [| k ks IH]; intros Hks; [done |].
  assert (Hk : k ∈ dom m) by (apply Hks; left).
  apply elem_of_dom in Hk as [v Hv].
  cbn [omap list_omap]. rewrite Hv. cbn. f_equal.
  apply IH. intros k' Hk'. apply Hks. by right.
Qed.

Lemma map_range_fst w (m : gmap string (list string)) :
  range_ok w -> (map_range w m).*1 = range_order w (elements (dom m)).
Proof.
  intros Hw. unfold map_range. apply omap_lookup_keys.
  intros k Hk. by apply (range_keys_elem w (dom m) k Hw).
Qed.

Lemma analyse_filter_Val w goos goarch stdlib (imps : gmap string (list string))
    e2 imports :
  range_ok w ->
  analyse_filter w goos goarch stdlib imps = (e2, Val imports) ->
  let keys := range_order w (elements (dom imps)) in
  (stdlib = false -> Forall (fun I => cmd_err (classify w goos goarch I) = None) keys) /\
  imports = (if stdlib then keys
             else filter (fun I => is_std w goos goarch I = false) keys) /\
  e2 = (if stdlib then [] else classify_event w goos goarch <$> keys).
Proof.
  intros Hw H keys. unfold analyse_filter in H.
  destruct stdlib.
  - rewrite filter_loop_all, (map_range_fst w imps Hw) in H.
    injection H as <- <-. done.
  - destruct (first_failure
                (fun kv : string * list string =>
                   cmd_err (classify w goos goarch kv.1) = None)
                (map_range w imps)) as [Hall | (pre & [I by_] & post & Heq & Hpre & HI)].
    + rewrite (filter_loop_ok _ _ _ _ _ Hall), (map_range_fst w imps Hw) in H.
      injection H as <- <-. split; [| done].
      intros _. unfold keys. rewrite <- (map_range_fst w imps Hw).
      by apply Forall_fmap.
    + cbn [fst] in HI.
      destruct (cmd_err (classify w goos goarch I)) as [err |] eqn:Herr; [| done].
      rewrite Heq, (filter_loop_fail _ _ _ _ _ _ _ _ _ Hpre Herr) in H. done.
Qed.

Lemma collected_keys w ignore pkgs (imps : gmap string (list string)) evs I :
  range_ok w ->
  analyse_collect w ignore pkgs = (evs, Val imps) ->
  I ∈ dom imps <-> importers w ignore I pkgs <> [].
Proof.
  intros Hw H. unfold analyse_collect in H.
  rewrite elem_of_dom, (collect_pkgs_lookup _ _ _ _ _ _ I Hw H), lookup_empty.
  destruct (importers w ignore I pkgs); split; try done.
Qed.

(** X1.  After the collection loop, the map holds for every import path the
    IDs of the loaded packages that import it from outside their module and
    past the ignore patterns, in load order; a path without such a package
    has no entry, so no entry has an empty list of importers. *)
Theorem collect_importers_exact (w : World) (ignore : list Regexp)
    (pkgs : list packages_Package) (imps : gmap string (list string))
    (evs : list event) (I : string) :
  range_ok w ->
  analyse_collect w ignore pkgs = (evs, Val imps) ->
  imps !! I = match importers w ignore I pkgs with
              | [] => None
              | l => Some l
              end.
Proof.
  intros Hw H. unfold analyse_collect in H.
  rewrite (collect_pkgs_lookup _ _ _ _ _ _ I Hw H), lookup_empty.
  by destruct (importers w ignore I pkgs).
Qed.

Lemma collect_importers_exact_witness :
  (<["b/x" := ["a/p"]]> (∅ : gmap string (list string))) !! "b/x"
  = match importers w_two [] "b/x" pkgs_two with
    | [] => None
    | l => Some l
    end.
Proof.
  apply (collect_importers_exact w_two [] pkgs_two _ []).
  - apply range_ok_id.
  - exact collect_w_two.
Defined.

(** X2.  When resolution succeeds, an import path is handed on exactly when
    some loaded package imports it from outside its module and past the
    ignore patterns, and either [-stdlib] is set or [go list] did not answer
    [true] for it. *)
Theorem analysis_target_exact (w : World) (goos goarch : string)
    (ignore : list Regexp) (stdlib : bool) (pkgs : list packages_Package)
    (imps : gmap string (list string)) (imports : list string)
    (e1 e2 : list event) (I : string) :
  range_ok w ->
  analyse_collect w ignore pkgs = (e1, Val imps) ->
  analyse_filter w goos goarch stdlib imps = (e2, Val imports) ->
  I ∈ imports <->
  importers w ignore I pkgs <> [] /\
  (stdlib = true \/ is_std w goos goarch I = false).
Proof.
  intros Hw Hc Hf.
  destruct (analyse_filter_Val _ _ _ _ _ _ _ Hw Hf) as (_ & -> & _).
  rewrite <- (collected_keys _ _ _ _ _ I Hw Hc).
  destruct stdlib.
  - rewrite (range_keys_elem w (dom imps) I Hw).
    split; [intros ?; split; [done | by left] | by intros [? _]].
  - rewrite list_elem_of_filter, (range_keys_elem w (dom imps) I Hw).
    split; [intros [? ?]; split; [done | by right] |].
    intros [? [? | ?]]; done.
Qed.

Lemma analysis_target_exact_witness :
  "fmt" ∈ ["A"] <->
  importers w_ok ignore_B "fmt" pkgs_ok <> [] /\
  (false = true \/ is_std w_ok "linux" "amd64" "fmt" = false).
Proof.
  apply (analysis_target_exact w_ok "linux" "amd64" ignore_B false pkgs_ok
           (<["A" := ["m/p"]]> (<["fmt" := ["m/p"]]> ∅)) ["A"] []
           [classify_event w_ok "linux" "amd64" "A";
            classify_event w_ok "linux" "amd64" "fmt"]).
  - apply range_ok_id.
  - exact collect_w_ok.
  - vm_compute. reflexivity.
Defined.

(** X3.  The import paths handed on hold no path twice. *)
Theorem analysis_target_NoDup (w : World) (goos goarch : string)
    (stdlib : bool) (imps : gmap string (list string)) (imports : list string)
    (e2 : list event) :
  range_ok w ->
  analyse_filter w goos goarch stdlib imps = (e2, Val imports) ->
  NoDup imports.
Proof.
  intros Hw Hf.
  destruct (analyse_filter_Val _ _ _ _ _ _ _ Hw Hf) as (_ & -> & _).
  destruct stdlib; [| apply NoDup_filter]; apply range_keys_NoDup, Hw.
Qed.

Lemma analysis_target_NoDup_witness : NoDup ["a"; "b"].
Proof.
  apply (analysis_target_NoDup w_fwd "linux" "amd64" true
           (<["a" := ["m/p"]]> (<["b" := ["m/p"]]> ∅)) ["a"; "b"] []).
  - apply range_ok_id.
  - vm_compute. reflexivity.
Defined.

(** X4.  With [-stdlib] the classification is skipped: no process is run and
    every collected import path is handed on, in iteration order. *)
Theorem stdlib_skips_classification (w : World) (goos goarch : string)
    (imps : gmap string (list string)) :
  range_ok w ->
  analyse_filter w goos goarch true imps
  = ([], Val (range_order w (elements (dom imps)))).
Proof.
  intros Hw. unfold analyse_filter.
  by rewrite filter_loop_all, (map_range_fst w imps Hw).
Qed.

Lemma stdlib_skips_classification_witness :
  analyse_filter w_ok "linux" "amd64" true
    (<["A" := ["m/p"]]> (<["fmt" := ["m/p"]]> ∅))
  = ([], Val (range_order w_ok
                (elements (dom (<["A" := ["m/p"]]>
                                  (<["fmt" := ["m/p"]]>
                                     (∅ : gmap string (list string)))))))).
Proof. apply stdlib_skips_classification, range_ok_id. Defined.

(** X5.  Without [-stdlib], a classification that succeeds runs exactly one
    [go list] query per collected import path, in iteration order, each with
    [GOOS] and [GOARCH] appended to the environment, and nothing else. *)
Theorem one_query_per_import (w : World) (goos goarch : string)
    (imps : gmap string (list string)) (imports : list string)
    (e2 : list event) :
  range_ok w ->
  analyse_filter w goos goarch false imps = (e2, Val imports) ->
  e2 = (fun I => Exec "go" ["list"; "-f={{.Standard}}"; I]
                   (Some (os_Environ w ++ ["GOOS=" +:+ goos; "GOARCH=" +:+ goarch])))
       <$> range_order w (elements (dom imps)).
Proof.
  intros Hw Hf.
  by destruct (analyse_filter_Val _ _ _ _ _ _ _ Hw Hf) as (_ & _ & ->).
Qed.

Lemma one_query_per_import_witness :
  [classify_event w_ok "linux" "amd64" "A";
   classify_event w_ok "linux" "amd64" "fmt"]
  = (fun I => Exec "go" ["list"; "-f={{.Standard}}"; I]
                (Some (os_Environ w_ok ++ ["GOOS=" +:+ "linux"; "GOARCH=" +:+ "amd64"])))
    <$> range_order w_ok
          (elements (dom (<["A" := ["m/p"]]>
                            (<["fmt" := ["m/p"]]>
                               (∅ : gmap string (list string)))))).
Proof.
  apply (one_query_per_import w_ok "linux" "amd64" _ ["A"]).
  - apply range_ok_id.
  - vm_compute. reflexivity.
Defined.

Lemma analyse_filter_outcome w goos goarch (imps : gmap string (list string)) :
  (Forall (fun kv => cmd_err (classify w goos goarch kv.1) = None) (map_range w imps) /\
   exists imports, snd (analyse_filter w goos goarch false imps) = Val imports) \/
  (exists pre I by_ post err,
     map_range w imps = pre ++ (I, by_) :: post /\
     cmd_err (classify w goos goarch I) = Some err /\
     analyse_filter w goos goarch false imps =
     ((classify_event w goos goarch <$> pre.*1) ++
      [classify_event w goos goarch I;
       Stderr (("go list " +:+ err +:+ ": " +:+
                (strings_Cut (cmd_stderr (classify w goos goarch I)) ";").1.1)
               +:+ ": imported by " +:+ strings_Join by_ "," +:+ nl)],
      Exit internalError)).
Proof.
  unfold analyse_filter.
  destruct (first_failure
              (fun kv : string * list string =>
                 cmd_err (classify w goos goarch kv.1) = None)
              (map_range w imps)) as [Hall | (pre & [I by_] & post & Heq & Hpre & HI)].
  - left. split; [done |]. rewrite (filter_loop_ok _ _ _ _ _ Hall). eauto.
  - right. cbn [fst] in HI.
    destruct (cmd_err (classify w goos goarch I)) as [err |] eqn:Herr; [| done].
    exists pre, I, by_, post, err. split; [done |]. split; [done |].
    rewrite Heq. by apply filter_loop_fail.
Qed.

(** X6.  Without [-stdlib], the classification ends the run with status 1
    exactly when the [go list] query of some collected import path fails.
    The last thing it then writes is one line on standard error that names,
    after [imported by], the importers of the path whose query failed. *)
Theorem classification_failure_aborts (w : World) (goos goarch : string)
    (imps : gmap string (list string)) :
  range_ok w ->
  (snd (analyse_filter w goos goarch false imps) = Exit 1 <->
   exists I, I ∈ dom imps /\ cmd_err (classify w goos goarch I) <> None) /\
  (forall e2 c,
     analyse_filter w goos goarch false imps = (e2, Exit c) ->
     c = 1 /\
     exists I by_ msg,
       imps !! I = Some by_ /\
       cmd_err (classify w goos goarch I) <> None /\
       last e2 = Some (Stderr (msg +:+ ": imported by " +:+
                               strings_Join by_ "," +:+ nl))).
Proof.
  intros Hw.
  destruct (analyse_filter_outcome w goos goarch imps)
    as [[Hall [imports Hv]] | (pre & I & by_ & post & err & Heq & Herr & Hrun)].
  - split.
    + rewrite Hv. split; [done |]. intros (I & HI & Hbad). exfalso. apply Hbad.
      apply (range_keys_elem w (dom imps) I Hw) in HI.
      rewrite <- (map_range_fst w imps Hw) in HI.
      apply list_elem_of_fmap in HI as (kv & -> & Hkv).
      by apply (proj1 (Forall_forall _ _) Hall kv).
    + intros e2 c H. rewrite H in Hv. done.
  - assert (Hin : imps !! I = Some by_).
    { apply (map_range_lookup w). rewrite Heq.
      apply elem_of_app. right. by left. }
    split.
    + rewrite Hrun. split; [| done]. intros _. exists I. split.
      * apply elem_of_dom. by eexists.
      * by rewrite Herr.
    + intros e2 c H. rewrite Hrun in H. injection H as <- <-.
      split; [done |]. eexists I, by_, _. split; [done |].
      split; [by rewrite Herr |].
      by rewrite last_app.
Qed.

Lemma range_ok_badlist : range_ok w_badlist.
Proof. intros l. reflexivity. Qed.

Lemma classification_failure_aborts_witness :
  snd (analyse_filter w_badlist "linux" "amd64" false
         (<["A" := ["m/p"]]> ∅)) = Exit 1 <->
  exists I, I ∈ dom (<["A" := ["m/p"]]> (∅ : gmap string (list string))) /\
            cmd_err (classify w_badlist "linux" "amd64" I) <> None.
Proof.
  exact (proj1 (classification_failure_aborts w_badlist "linux" "amd64" _
                  range_ok_badlist)).
Defined.

(** The run of [w_badlist]: the diagnostic stops at the first semicolon of
    what [go list] wrote and names the importer. *)
Example classification_failure_message :
  analyse w_badlist "linux" "amd64" [] true false false false false false ""
  = ([Exec "go" ["env"; "GOMOD"] None;
      LoadCall {| cfg_Tests := false; cfg_Mode := 8200; cfg_Env := env_ok |}
               "/work/...";
      Exec "go" ["list"; "-f={{.Standard}}"; "A"] (Some env_ok);
      Stderr ("go list exit status 1: no required module provides package A"
              +:+ ": imported by m/p" +:+ nl)],
     Exit 1).
Proof. vm_compute. reflexivity. Qed.

(** ** Independence of the order of map iteration *)

Lemma matchers_match_with_order w f m s :
  matchers_match (with_order w f) m s = matchers_match w m s.
Proof. induction m as [| re m IH]; [done |]. cbn [matchers_match]. by rewrite IH. Qed.

Lemma collect_pkg_with_order w f ignore pkg keys imps :
  collect_pkg (with_order w f) ignore pkg keys imps
  = collect_pkg w ignore pkg keys imps.
Proof.
  revert imps. induction keys as [| imp keys IH]; intros imps; [done |].
  cbn [collect_pkg]. rewrite matchers_match_with_order.
  destruct (pkg_Module pkg); [| done].
  destruct (strings_HasPrefix _ _); [apply IH |].
  destruct (matchers_match _ _ _); apply IH.
Qed.

Lemma collect_pkg_keys_perm w ignore pkg keys keys'
    (imps m1 : gmap string (list string)) e :
  NoDup keys -> NoDup keys' -> keys ≡ₚ keys' ->
  collect_pkg w ignore pkg keys imps = (e, Val m1) ->
  collect_pkg w ignore pkg keys' imps = ([], Val m1).
Proof.
  intros Hnd Hnd' Hperm H.
  destruct (collect_pkg_outcome w ignore pkg keys' imps) as [[m2 H2] | Hp].
  - rewrite H2. f_equal. f_equal. apply map_eq. intros I.
    rewrite (collect_pkg_lookup _ _ _ _ _ _ _ I Hnd' H2).
    rewrite (collect_pkg_lookup _ _ _ _ _ _ _ I Hnd H).
    assert (bool_decide (I ∈ keys') = bool_decide (I ∈ keys)) as ->; [| done].
    apply bool_decide_ext. by rewrite Hperm.
  - exfalso. destruct (pkg_Module pkg) as [m |] eqn:Hm.
    + apply (collect_pkg_no_panic w ignore pkg keys' imps); [by rewrite Hm |].
      by rewrite Hp.
    + destruct keys as [| k keys].
      * apply Permutation_nil_l in Hperm. subst keys'. discriminate Hp.
      * rewrite (collect_pkg_nil_module w ignore pkg (k :: keys) imps Hm) in H; done.
Qed.

Lemma collect_pkgs_with_order w f ignore pkgs (imps m1 : gmap string (list string)) e :
  range_ok w -> range_ok (with_order w f) ->
  collect_pkgs w ignore pkgs imps = (e, Val m1) ->
  collect_pkgs (with_order w f) ignore pkgs imps = ([], Val m1).
Proof.
  intros Hw Hw'. revert imps e.
  induction pkgs as [| pkg pkgs IH]; intros imps e; cbn [collect_pkgs].
  - intros [= _ <-]. done.
  - intros H. apply bind_Val_inv in H as (e1 & imps1 & e2 & H1 & H2 & _).
    rewrite collect_pkg_with_order.
    rewrite (collect_pkg_keys_perm w ignore pkg
               (range_order w (elements (pkg_Imports pkg)))
               (range_order (with_order w f) (elements (pkg_Imports pkg)))
               imps imps1 e1 (range_keys_NoDup w (pkg_Imports pkg) Hw)
               (range_keys_NoDup (with_order w f) (pkg_Imports pkg) Hw'));
      [| | done].
    + cbn [bind]. by rewrite (IH _ _ H2).
    + by rewrite (Hw _), (Hw' _).
Qed.

Lemma analyse_filter_with_order w f goos goarch stdlib
    (imps : gmap string (list string)) e2 imports :
  range_ok w -> range_ok (with_order w f) ->
  analyse_filter w goos goarch stdlib imps = (e2, Val imports) ->
  exists e2' imports',
    analyse_filter (with_order w f) goos goarch stdlib imps = (e2', Val imports') /\
    imports' ≡ₚ imports.
Proof.
  intros Hw Hw' H.
  destruct (analyse_filter_Val _ _ _ _ _ _ _ Hw H) as (Hall & -> & _).
  assert (Hkeys : range_order (with_order w f) (elements (dom imps))
                  ≡ₚ range_order w (elements (dom imps))).
  { by rewrite (Hw _), (Hw' _). }
  destruct stdlib.
  - unfold analyse_filter.
    rewrite filter_loop_all, (map_range_fst _ imps Hw'). eauto.
  - unfold analyse_filter. specialize (Hall eq_refl).
    rewrite (filter_loop_ok (with_order w f)).
    + rewrite (map_range_fst _ imps Hw'). eexists _, _. split; [done |].
      cbn [app]. by apply filter_Permutation.
    + assert (HF : Forall (fun I => cmd_err (classify w goos goarch I) = None)
                     (map_range (with_order w f) imps).*1).
      { rewrite (map_range_fst _ imps Hw'). by rewrite Hkeys. }
      apply Forall_fmap in HF. exact HF.
Qed.

Lemma resolve_with_order w f goos goarch ignore module stdlib evs root imports :
  range_ok w -> range_ok (with_order w f) ->
  resolve w goos goarch ignore module stdlib = (evs, Val (root, imports)) ->
  exists evs' imports',
    resolve (with_order w f) goos goarch ignore module stdlib
    = (evs', Val (root, imports')) /\
    imports' ≡ₚ imports.
Proof.
  intros Hw Hw' H.
  apply resolve_inv in H as (e0 & e1 & pkgs & e2 & imps & e3 & Hr & Hl & Hc & Hf & _).
  destruct (analyse_filter_with_order w f _ _ _ _ _ _ Hw Hw' Hf)
    as (e3' & imports' & Hf' & Hperm).
  exists (e0 ++ e1 ++ e3'), imports'. split; [| done].
  unfold resolve.
  change (analyse_root (with_order w f) module) with (analyse_root w module).
  rewrite Hr. cbn [bind].
  change (analyse_load (with_order w f) goos goarch root)
    with (analyse_load w goos goarch root).
  rewrite Hl. cbn [bind]. unfold analyse_collect in *.
  rewrite (collect_pkgs_with_order w f _ _ _ _ _ Hw Hw' Hc). cbn [bind].
  rewrite Hf'. cbn [bind ret app]. by rewrite app_nil_r.
Qed.

(** X7.  The order in which maps are visited changes the order of the import
    paths handed on and nothing else about them: when resolution succeeds
    under one order it succeeds under any other, with the same root and a
    permutation of the same import paths. *)
Theorem resolve_order_independent (w : World)
    (f : list string -> list string) (goos goarch : string)
    (ignore : list Regexp) (module stdlib : bool) (evs : list event)
    (root : string) (imports : list string) :
  range_ok w -> range_ok (with_order w f) ->
  resolve w goos goarch ignore module stdlib = (evs, Val (root, imports)) ->
  exists evs' imports',
    resolve (with_order w f) goos goarch ignore module stdlib
    = (evs', Val (root, imports')) /\
    imports' ≡ₚ imports.
Proof. apply resolve_with_order. Qed.

Lemma resolve_order_independent_witness :
  exists evs' imports',
    resolve (with_order w_fwd (@rev string)) "linux" "amd64" [] true false
    = (evs', Val ("/work", imports')) /\
    imports' ≡ₚ ["a"; "b"].
Proof.
  eapply (resolve_order_independent w_fwd (@rev string)).
  - apply range_ok_id.
  - apply (range_ok_rev in_module pkgs_ab "diff").
  - exact resolve_w_fwd.
Defined.

(** ** Compiling the ignore patterns *)

Lemma regexps_loop_ok_spec w ps re0 :
  Forall (fun p => is_Some (compiled w p)) ps ->
  regexps_loop w ps re0 = (re0 ++ omap (compiled w) ps, None).
Proof.
  intros Hall. revert re0.
  induction Hall as [| p ps [r Hp] Hall IH]; intros re0; cbn [regexps_loop].
  - by rewrite app_nil_r.
  - unfold compiled in Hp. cbn [omap list_omap]. unfold compiled at 1.
    destruct (regexp_Compile w p) as [r' | e]; [| done].
    rewrite IH. by rewrite <- app_assoc.
Qed.

Lemma regexps_loop_fail_spec w pre p post re0 e :
  Forall (fun p => is_Some (compiled w p)) pre ->
  regexp_Compile w p = inr e ->
  regexps_loop w (pre ++ p :: post) re0 = ([], Some e).
Proof.
  intros Hall Hp. revert re0.
  induction Hall as [| q pre [r Hq] Hall IH]; intros re0; cbn [app regexps_loop].
  - by rewrite Hp.
  - unfold compiled in Hq. destruct (regexp_Compile w q); [apply IH | done].
Qed.

Lemma set_regexps_outcome w (s : gmap string bool) :
  let keys := range_order w (elements (dom s)) in
  (Forall (fun p => is_Some (compiled w p)) keys /\
   set_regexps w s = (omap (compiled w) keys, None)) \/
  (exists p e, p ∈ keys /\ regexp_Compile w p = inr e /\
               set_regexps w s = ([], Some e)).
Proof.
  intros keys. unfold set_regexps. fold keys.
  destruct (first_failure (fun p => is_Some (compiled w p)) keys)
    as [Hall | (pre & p & post & Heq & Hpre & Hp)].
  - left. split; [done |]. by rewrite (regexps_loop_ok_spec _ _ _ Hall).
  - right. unfold compiled in Hp.
    destruct (regexp_Compile w p) as [r | e] eqn:Hc.
    { destruct Hp. by eexists. }
    exists p, e. split; [| split; [done |]].
    + rewrite Heq. apply elem_of_app. right. by left.
    + rewrite Heq. by apply regexps_loop_fail_spec.
Qed.

Lemma omap_compiled_Forall2 w ps :
  Forall (fun p => is_Some (compiled w p)) ps ->
  Forall2 (fun p r => regexp_Compile w p = inl r) ps (omap (compiled w) ps).
Proof.
  induction 1 as [| p ps [r Hp] Hall IH]; [constructor |].
  cbn [omap list_omap]. rewrite Hp. constructor; [| done].
  unfold compiled in Hp. destruct (regexp_Compile w p); by inversion Hp.
Qed.

(** X8.  When every [-i] pattern compiles, [regexps] returns one matcher per
    distinct pattern: the compiled patterns, in iteration order. *)
Theorem regexps_one_per_pattern (w : World) (s : gmap string bool)
    (re : list Regexp) :
  range_ok w ->
  set_regexps w s = (re, None) ->
  length re = size s /\
  Forall2 (fun p r => regexp_Compile w p = inl r)
          (range_order w (elements (dom s))) re.
Proof.
  intros Hw H.
  destruct (set_regexps_outcome w s) as [[Hall Heq] | (p & e & _ & _ & Heq)];
    rewrite Heq in H; [| done].
  injection H as <-.
  pose proof (omap_compiled_Forall2 w _ Hall) as HF. split; [| done].
  rewrite <- (Forall2_length _ _ _ HF), (Hw _).
  by rewrite <- size_dom.
Qed.

Lemma regexps_one_per_pattern_witness :
  length ignore_B = size (set_Set ∅ "B") /\
  Forall2 (fun p r => regexp_Compile w_ok p = inl r)
          (range_order w_ok (elements (dom (set_Set ∅ "B")))) ignore_B.
Proof.
  apply regexps_one_per_pattern.
  - apply range_ok_id.
  - vm_compute. reflexivity.
Defined.

(** X9.  [regexps] fails exactly when some pattern of the set does not
    compile; it then returns no matcher at all, and the error is the
    compilation error of a pattern of the set. *)
Theorem regexps_failure (w : World) (s : gmap string bool) :
  range_ok w ->
  (snd (set_regexps w s) <> None <->
   exists p e, p ∈ dom s /\ regexp_Compile w p = inr e) /\
  (forall re e, set_regexps w s = (re, Some e) ->
     re = [] /\ exists p, p ∈ dom s /\ regexp_Compile w p = inr e).
Proof.
  intros Hw.
  destruct (set_regexps_outcome w s) as [[Hall Heq] | (p & e & Hp & Hc & Heq)];
    rewrite Heq; cbn [snd].
  - split; [| done]. split; [done |]. intros (p & e & Hp & Hc). exfalso.
    apply (range_keys_elem w (dom s) p Hw) in Hp.
    destruct (proj1 (Forall_forall _ _) Hall p Hp) as [r Hr].
    unfold compiled in Hr. by rewrite Hc in Hr.
  - apply (range_keys_elem w (dom s) p Hw) in Hp. split.
    + split; [| done]. intros _. by exists p, e.
    + intros re e' [= <- <-]. split; [done |]. by exists p.
Qed.

Lemma regexps_failure_witness :
  snd (set_regexps w_ok (set_Set ∅ "(")) <> None <->
  exists p e, p ∈ dom (set_Set ∅ "(") /\ regexp_Compile w_ok p = inr e.
Proof.
  exact (proj1 (regexps_failure w_ok (set_Set ∅ "(") (range_ok_id _ _ _))).
Defined.

(** ** Matching *)

Lemma matchers_match_perm w (m1 m2 : list Regexp) s :
  m1 ≡ₚ m2 -> matchers_match w m1 s = matchers_match w m2 s.
Proof.
  intros Hperm.
  destruct (matchers_match w m1 s) eqn:H1, (matchers_match w m2 s) eqn:H2;
    try done.
  - apply matchers_match_true in H1 as (re & Hin & Hm).
    rewrite Hperm in Hin.
    assert (matchers_match w m2 s = true) as H.
    { apply matchers_match_true. eauto. }
    congruence.
  - apply matchers_match_true in H2 as (re & Hin & Hm).
    rewrite <- Hperm in Hin.
    assert (matchers_match w m1 s = true) as H.
    { apply matchers_match_true. eauto. }
    congruence.
Qed.

(** X10.  [match] is true exactly when some matcher of the list matches, so
    it is false on the empty list, is the disjunction over a concatenation,
    and does not depend on the order of the matchers. *)
Theorem match_is_any (w : World) (s : string) :
  matchers_match w [] s = false /\
  (forall m1 m2, matchers_match w (m1 ++ m2) s
                 = matchers_match w m1 s || matchers_match w m2 s) /\
  (forall m1 m2, m1 ≡ₚ m2 -> matchers_match w m1 s = matchers_match w m2 s).
Proof.
  split; [done |]. split; [| intros; by apply matchers_match_perm].
  intros m1 m2. induction m1 as [| re m1 IH]; [done |].
  cbn [app matchers_match]. by destruct (regexp_MatchString w re s).
Qed.

Lemma match_is_any_witness :
  matchers_match w_ok [{| expr := "x" |}; {| expr := "B" |}] "B-ignored"
  = matchers_match w_ok [{| expr := "B" |}; {| expr := "x" |}] "B-ignored".
Proof.
  apply (proj2 (proj2 (match_is_any w_ok "B-ignored"))).
  apply perm_swap.
Defined.

(** ** Statuses *)

Lemma bind_exits {A B} (S : Z -> Prop) (m : M A) (f : A -> M B) :
  exits_in S m -> (forall a, exits_in S (f a)) -> exits_in S (bind m f).
Proof.
  unfold exits_in. destruct m as [e1 [a | c |]]; simpl; intros H1 H2 c'; try done.
  - specialize (H2 a c'). by destruct (f a).
  - intros [= <-]. by apply H1.
Qed.

Lemma exits_in_impl {A} (S T : Z -> Prop) (m : M A) :
  (forall c, S c -> T c) -> exits_in S m -> exits_in T m.
Proof. unfold exits_in. eauto. Qed.

Ltac status_case :=
  first [ by left | by (right; left) | by (right; right; left)
        | by (right; right; right) | by (right; right) | by right | done ].

Ltac exits_step :=
  match goal with
  | |- exits_in _ (bind _ _) => apply bind_exits; [| intros ?]
  | |- exits_in _ (emit _) => by intros ?
  | |- exits_in _ (Eprintln _) => by intros ?
  | |- exits_in _ (Println _) => by intros ?
  | |- exits_in _ (Print _) => by intros ?
  | |- exits_in _ (ret _) => by intros ?
  | |- exits_in _ panic => by intros ?
  | |- exits_in _ (exit _) => intros ? [= <-]; status_case
  | |- exits_in _ (match ?x with _ => _ end) => destruct x
  | |- exits_in _ (if ?b then _ else _) => destruct b
  | |- exits_in _ (let '(_, _) := ?x in _) => destruct x
  end.

Lemma moduleRoot_exits w : exits_in (fun _ => False) (moduleRoot w).
Proof. unfold moduleRoot. repeat exits_step. Qed.

Lemma analyse_root_exits w module :
  exits_in (fun c => c = 1 \/ c = 2) (analyse_root w module).
Proof.
  unfold analyse_root. apply bind_exits.
  { eapply exits_in_impl; [| apply moduleRoot_exits]. done. }
  intros [[root valid] err]. repeat exits_step.
Qed.

Lemma PrintErrors_exits w pkgs : exits_in (fun _ => False) (PrintErrors w pkgs).
Proof.
  unfold PrintErrors. apply bind_exits; [| intros; exits_step].
  induction (packages_PrintErrors w pkgs) as [| e l IH]; repeat exits_step.
  exact IH.
Qed.

Lemma analyse_load_exits w goos goarch root :
  exits_in (fun c => c = 1) (analyse_load w goos goarch root).
Proof.
  unfold analyse_load. exits_step; [exits_step |].
  exits_step; [| repeat exits_step].
  apply bind_exits.
  { eapply exits_in_impl; [| apply PrintErrors_exits]. done. }
  intros. repeat exits_step.
Qed.

Lemma analyse_collect_exits w ignore pkgs :
  exits_in (fun _ => False) (analyse_collect w ignore pkgs).
Proof.
  unfold analyse_collect. generalize (∅ : gmap string (list string)).
  induction pkgs as [| pkg pkgs IH]; intros imps; cbn [collect_pkgs].
  - exits_step.
  - apply bind_exits; [| intros; apply IH].
    destruct (collect_pkg_outcome w ignore pkg
                (range_order w (elements (pkg_Imports pkg))) imps)
      as [[imps' ->] | ->]; by intros ?.
Qed.

Lemma analyse_filter_exits w goos goarch stdlib imps :
  exits_in (fun c => c = 1) (analyse_filter w goos goarch stdlib imps).
Proof.
  unfold analyse_filter. generalize (@nil string).
  induction (map_range w imps) as [| [i by_] kvs IH]; intros imports;
    cbn [filter_loop].
  - exits_step.
  - destruct stdlib; cbn [negb]; [apply IH |].
    rewrite isStdlib_spec. cbn [bind].
    destruct (cmd_err _).
    + intros c. cbn. by intros [= <-].
    + destruct (is_std w goos goarch i); intros c;
        [specialize (IH imports c) | specialize (IH (imports ++ [i]) c)];
        destruct (filter_loop _ _ _ _ _ _); exact IH.
Qed.

Lemma resolve_exits w goos goarch ignore module stdlib :
  exits_in (fun c => c = 1 \/ c = 2) (resolve w goos goarch ignore module stdlib).
Proof.
  unfold resolve.
  apply bind_exits; [apply analyse_root_exits | intros root].
  apply bind_exits; [| intros pkgs].
  { eapply exits_in_impl; [| apply analyse_load_exits]. by left. }
  apply bind_exits; [| intros imps].
  { eapply exits_in_impl; [| apply analyse_collect_exits]. done. }
  apply bind_exits; [| intros imports; by intros ?].
  eapply exits_in_impl; [| apply analyse_filter_exits]. by left.
Qed.

Lemma analyse_dispatch_exits w goos goarch root imports list_ lock verbose
    noBuiltin custom :
  exits_in (fun c => c = 0 \/ c = 1 \/ (c = 4 /\ list_ = false /\ lock = false))
    (analyse_dispatch w goos goarch root imports list_ lock verbose noBuiltin custom).
Proof.
  unfold analyse_dispatch. destruct list_; [| destruct lock].
  - rewrite print_lines_spec. intros c [= <-]. by left.
  - rewrite !capslock_write by reflexivity.
    destruct (cmd_err (cmd_Run w "capslock" (capslock_args _ _ _ "verbose" _ _ _) _));
      [| destruct (os_WriteFile w _ _ _)];
      try destruct (cmd_err (cmd_Run w "capslock" (capslock_args _ _ _ "json" _ _ _) _));
      try destruct (os_WriteFile w (filepath_Join w root "caps.lock") _ _);
      destruct verbose; intros c [= <-]; status_case.
  - rewrite capslock_compare. cbv zeta.
    destruct (cmd_err _);
      cbn [bind fst snd app Print Eprintln emit exit ret Buffer_Len Buffer_String].
    + intros c [= <-]. right. by left.
    + destruct (negb _); intros c [= <-]; [right; right | left]; done.
Qed.

Lemma analyse_exits w goos goarch ignore module list_ lock stdlib verbose
    noBuiltin custom :
  exits_in (fun c => c = 0 \/ c = 1 \/ c = 2 \/ (c = 4 /\ list_ = false /\ lock = false))
    (analyse w goos goarch ignore module list_ lock stdlib verbose noBuiltin custom).
Proof.
  unfold analyse. apply bind_exits.
  - eapply exits_in_impl; [| apply resolve_exits]. intros c; cbv beta; tauto.
  - intros [root imports].
    eapply exits_in_impl; [| apply analyse_dispatch_exits].
    intros c; cbv beta; tauto.
Qed.

Lemma Main_exits w fl :
  exits_in (fun c => c = 0 \/ c = 1 \/ c = 2 \/
                     (c = 4 /\ f_list fl = false /\ f_lock fl = false))
    (Main w fl).
Proof.
  unfold Main. destruct (set_regexps w (f_ignore fl)) as [ignorer err].
  destruct (f_noBuiltin fl && _).
  { intros c [= <-]. vm_compute. tauto. }
  destruct err; [intros c [= <-]; status_case |].
  apply analyse_exits.
Qed.

Lemma main_eq_Main w fl : main w fl = Main w fl.
Proof.
  unfold main.
  assert (H : forall x, snd (Main w fl) <> Val x).
  { unfold Main. destruct (set_regexps w (f_ignore fl)) as [ignorer err].
    destruct (f_noBuiltin fl && _); [done |].
    destruct err; [done |]. intros x. unfold analyse.
    destruct (resolve _ _ _ _ _ _) as [e [[root imports] | c |]]; cbn [bind];
      [| done | done].
    destruct (analyse_dispatch _ _ _ _ _ _ _ _ _ _) as [e' r] eqn:Hd.
    cbn [snd]. intros ->.
    unfold analyse_dispatch in Hd.
    destruct (f_list fl); [| destruct (f_lock fl)].
    - rewrite print_lines_spec in Hd. done.
    - rewrite !capslock_write in Hd by reflexivity.
      destruct (cmd_err (cmd_Run w "capslock" (capslock_args _ _ _ "verbose" _ _ _) _));
        [| destruct (os_WriteFile w _ _ _)];
        try destruct (cmd_err (cmd_Run w "capslock" (capslock_args _ _ _ "json" _ _ _) _));
        try destruct (os_WriteFile w (filepath_Join w root "caps.lock") _ _);
        destruct (f_verbose fl); done.
    - rewrite capslock_compare in Hd. cbv zeta in Hd.
      destruct (cmd_err _);
        cbn [bind fst snd app Print Eprintln emit exit ret Buffer_Len Buffer_String] in Hd;
        [done |]. by destruct (negb _). }
  destruct (Main w fl) as [e [x | c |]]; cbn [bind exit]; try done.
  by destruct (H x).
Qed.

(** X11.  The program ends with status 0, 1, 2 or 4 and no other (or it
    panics); status 4 is returned only in comparing mode, that is with
    neither [-imports] nor [-lock]. *)
Theorem main_statuses (w : World) (fl : Flags) (c : Z) :
  snd (main w fl) = Exit c ->
  (c = 0 \/ c = 1 \/ c = 2 \/ c = 4) /\
  (c = 4 -> f_list fl = false /\ f_lock fl = false).
Proof.
  rewrite main_eq_Main. intros H.
  destruct (Main_exits w fl c H) as [-> | [-> | [-> | (-> & ? & ?)]]];
    (split; [tauto | try done]).
Qed.

Lemma main_statuses_witness :
  (4 = 0 \/ 4 = 1 \/ 4 = 2 \/ 4 = 4) /\
  (4 = 4 -> f_list default_flags = false /\ f_lock default_flags = false).
Proof.
  apply (main_statuses w_ok default_flags 4). vm_compute. reflexivity.
Defined.

(** ** Where each status comes from *)






(** ** The listing does not depend on the order of map iteration *)

Lemma set_regexps_with_order w f (s : gmap string bool) re :
  range_ok w -> range_ok (with_order w f) ->
  set_regexps w s = (re, None) ->
  exists re', set_regexps (with_order w f) s = (re', None) /\ re' ≡ₚ re.
Proof.
  intros Hw Hw' H.
  destruct (set_regexps_outcome w s) as [[Hall Heq] | (p & e & _ & _ & Heq)];
    rewrite Heq in H; [| done].
  injection H as <-.
  assert (Hkeys : range_order (with_order w f) (elements (dom s))
                  ≡ₚ range_order w (elements (dom s))).
  { by rewrite (Hw _), (Hw' _). }
  destruct (set_regexps_outcome (with_order w f) s)
    as [[Hall' Heq'] | (p & e & Hp & Hc & Heq')].
  - eexists. split; [exact Heq' |].
    change (compiled (with_order w f)) with (compiled w).
    by apply omap_Permutation.
  - exfalso. rewrite Hkeys in Hp.
    destruct (proj1 (Forall_forall _ _) Hall p Hp) as [r Hr].
    unfold compiled in Hr.
    change (regexp_Compile (with_order w f) p) with (regexp_Compile w p) in Hc.
    by rewrite Hc in Hr.
Qed.

Lemma collect_pkg_ignore_ext w ig1 ig2 pkg keys imps :
  (forall s, matchers_match w ig1 s = matchers_match w ig2 s) ->
  collect_pkg w ig1 pkg keys imps = collect_pkg w ig2 pkg keys imps.
Proof.
  intros Hext. revert imps. induction keys as [| imp keys IH]; intros imps; [done |].
  cbn [collect_pkg]. rewrite Hext.
  destruct (pkg_Module pkg); [| done].
  destruct (strings_HasPrefix _ _); [apply IH |].
  destruct (matchers_match _ _ _); apply IH.
Qed.

Lemma bind_ext {A B} (m : M A) (f g : A -> M B) :
  (forall a, f a = g a) -> bind m f = bind m g.
Proof. intros H. destruct m as [e [a | c |]]; cbn [bind]; by rewrite ?H. Qed.

Lemma collect_pkgs_ignore_ext w ig1 ig2 pkgs imps :
  (forall s, matchers_match w ig1 s = matchers_match w ig2 s) ->
  collect_pkgs w ig1 pkgs imps = collect_pkgs w ig2 pkgs imps.
Proof.
  intros Hext. revert imps. induction pkgs as [| pkg pkgs IH]; intros imps; [done |].
  cbn [collect_pkgs]. rewrite (collect_pkg_ignore_ext w ig1 ig2) by done.
  by apply bind_ext.
Qed.

Lemma resolve_ignore_ext w goos goarch ig1 ig2 module stdlib :
  (forall s, matchers_match w ig1 s = matchers_match w ig2 s) ->
  resolve w goos goarch ig1 module stdlib = resolve w goos goarch ig2 module stdlib.
Proof.
  intros Hext. unfold resolve.
  apply bind_ext. intros root. apply bind_ext. intros pkgs.
  unfold analyse_collect. by rewrite (collect_pkgs_ignore_ext w ig1 ig2).
Qed.

Lemma stdout_of_lines_resolved evs (l : list string) :
  Forall resolution_event evs ->
  stdout_of (evs ++ map (fun i => Stdout (i +:+ nl)) l)
  = stdout_of (map (fun i => Stdout (i +:+ nl)) l).
Proof.
  intros Hev. by rewrite stdout_of_app, (resolution_events_stdout evs Hev).
Qed.

(** X13.  The listing printed with [-imports] is the same under every order
    of map iteration: if the run ends with status 0 under one order, it ends
    with status 0 and the same standard output under any other. *)
Theorem listing_deterministic (w : World) (f : list string -> list string)
    (fl : Flags) :
  range_ok w -> range_ok (with_order w f) ->
  f_list fl = true ->
  snd (main w fl) = Exit 0 ->
  snd (main (with_order w f) fl) = Exit 0 /\
  stdout_of (fst (main (with_order w f) fl)) = stdout_of (fst (main w fl)).
Proof.
  intros Hw Hw' Hlist. rewrite !main_eq_Main. unfold Main.
  destruct (set_regexps w (f_ignore fl)) as [ig err] eqn:Hre.
  change (runtime_GOOS (with_order w f)) with (runtime_GOOS w).
  change (runtime_GOARCH (with_order w f)) with (runtime_GOARCH w).
  destruct (f_noBuiltin fl && _).
  { cbn. done. }
  destruct err as [e |]; [cbn; done |].
  destruct (set_regexps_with_order w f _ _ Hw Hw' Hre) as (ig' & -> & Hperm).
  set (goos := if String.eqb (f_goos fl) "" then _ else _).
  set (goarch := if String.eqb (f_goarch fl) "" then _ else _).
  rewrite Hlist.
  pose proof (resolve_exits w goos goarch ig (f_module fl) (f_stdlib fl)) as Hex.
  pose proof (resolve_events w goos goarch ig (f_module fl) (f_stdlib fl)) as Hev.
  destruct (resolve w goos goarch ig (f_module fl) (f_stdlib fl))
    as [evs [[root imports] | c |]] eqn:Hres.
  - destruct (resolve_with_order w f _ _ _ _ _ _ _ _ Hw Hw' Hres)
      as (evs' & imports' & Hres' & Hpi).
    assert (Hres2 : resolve (with_order w f) goos goarch ig' (f_module fl) (f_stdlib fl)
                    = (evs', Val (root, imports'))).
    { rewrite <- Hres'. apply resolve_ignore_ext. intros s.
      rewrite !matchers_match_with_order. by apply matchers_match_perm. }
    pose proof (resolve_events (with_order w f) goos goarch ig' (f_module fl)
                  (f_stdlib fl)) as Hev'.
    rewrite Hres2 in Hev'. cbn [fst] in Hev, Hev'.
    rewrite (analyse_resolved _ _ _ _ _ _ _ _ _ _ _ _ _ _ Hres).
    rewrite (analyse_resolved _ _ _ _ _ _ _ _ _ _ _ _ _ _ Hres2).
    unfold analyse_dispatch. rewrite !print_lines_spec. cbn [bind exit fst snd].
    intros _. split; [done |].
    rewrite !app_nil_r, !stdout_of_lines_resolved by done.
    by rewrite (sort_Strings_order_independent imports' imports).
  - unfold analyse. rewrite Hres. cbn [bind snd]. intros [= ->].
    destruct (Hex 0 eq_refl); done.
  - unfold analyse. rewrite Hres. done.
Qed.

Lemma listing_deterministic_witness :
  snd (main (with_order w_fwd (@rev string)) flags_listing) = Exit 0 /\
  stdout_of (fst (main (with_order w_fwd (@rev string)) flags_listing))
  = stdout_of (fst (main w_fwd flags_listing)).
Proof.
  apply listing_deterministic.
  - apply range_ok_id.
  - apply (range_ok_rev in_module pkgs_ab "diff").
  - reflexivity.
  - vm_compute. reflexivity.
Defined.

(** ** What is written to disk *)

Lemma resolution_event_not_write evs path data perm :
  Forall resolution_event evs -> WriteFileCall path data perm ∉ evs.
Proof.
  intros Hev Hin. by apply (proj1 (Forall_forall _ _) Hev) in Hin.
Qed.

Ltac pick_event H :=
  repeat (apply elem_of_cons in H as [H | H];
          [try discriminate H |]);
  try (by apply elem_of_nil in H).

(** X14.  Files are written in writing-baseline mode only, and only two of
    them: [caps.summary] and [caps.lock] under the resolved root, each with
    permissions 0664 and with the bytes that the analyzer printed in verbose
    respectively json format.  Listing and comparing write nothing. *)
Theorem writes_only_baseline (w : World) (goos goarch : string)
    (ignore : list Regexp)
    (module list_ lock stdlib verbose noBuiltin : bool) (custom : string)
    (path data : string) (perm : Z) :
  WriteFileCall path data perm ∈
    fst (analyse w goos goarch ignore module list_ lock stdlib verbose
           noBuiltin custom) ->
  list_ = false /\ lock = true /\ perm = 436 /\
  exists evs root imports,
    resolve w goos goarch ignore module stdlib = (evs, Val (root, imports)) /\
    ((path = filepath_Join w root "caps.summary" /\
      data = cmd_stdout (cmd_Run w "capslock"
               (capslock_args goos goarch imports "verbose" path custom noBuiltin)
               None)) \/
     (path = filepath_Join w root "caps.lock" /\
      data = cmd_stdout (cmd_Run w "capslock"
               (capslock_args goos goarch imports "json" path custom noBuiltin)
               None))).
Proof.
  pose proof (resolve_events w goos goarch ignore module stdlib) as Hev.
  destruct (resolve w goos goarch ignore module stdlib)
    as [evs [[root imports] | c |]] eqn:Hres; cbn [fst] in Hev.
  - rewrite (analyse_resolved _ _ _ _ _ _ _ _ _ _ _ _ _ _ Hres). cbn [fst].
    intros Hin. apply elem_of_app in Hin as [Hin | Hin].
    { by apply resolution_event_not_write in Hin. }
    unfold analyse_dispatch in Hin. destruct list_; [| destruct lock].
    + rewrite print_lines_spec in Hin. cbn [bind exit fst] in Hin.
      rewrite app_nil_r in Hin.
      apply list_elem_of_fmap in Hin as (i & Hi & _). discriminate.
    + rewrite !capslock_write in Hin by reflexivity.
      split; [done |]. split; [done |].
      assert (Hgoal : (path = filepath_Join w root "caps.summary" /\
                       data = cmd_stdout (cmd_Run w "capslock"
                                (capslock_args goos goarch imports "verbose" path
                                   custom noBuiltin) None) /\ perm = 436) \/
                      (path = filepath_Join w root "caps.lock" /\
                       data = cmd_stdout (cmd_Run w "capslock"
                                (capslock_args goos goarch imports "json" path
                                   custom noBuiltin) None) /\ perm = 436)).
      { destruct (cmd_err (cmd_Run w "capslock" (capslock_args _ _ _ "verbose" _ _ _) _));
          [| destruct (os_WriteFile w _ _ _)];
          try destruct (cmd_err (cmd_Run w "capslock" (capslock_args _ _ _ "json" _ _ _) _));
          try destruct (os_WriteFile w (filepath_Join w root "caps.lock") _ _);
          destruct verbose;
          cbn [bind fst snd app Println Eprintln emit exit ret] in Hin;
          pick_event Hin;
          try (injection Hin as -> -> ->; by left);
          try (injection Hin as -> -> ->; by right). }
      destruct Hgoal as [(? & ? & ?) | (? & ? & ?)];
        (split; [done |]); exists evs, root, imports; (split; [done |]);
        [by left | by right].
    + rewrite capslock_compare in Hin. cbv zeta in Hin.
      destruct (cmd_err _);
        cbn [bind fst snd app Print Eprintln emit exit ret Buffer_Len Buffer_String] in Hin;
        try destruct (negb _); cbn [bind fst app exit] in Hin; pick_event Hin.
  - unfold analyse. rewrite Hres. cbn [bind fst]. intros Hin.
    by apply resolution_event_not_write in Hin.
  - unfold analyse. rewrite Hres. cbn [bind fst]. intros Hin.
    by apply resolution_event_not_write in Hin.
Qed.

Lemma writes_only_baseline_witness :
  false = false /\ true = true /\ 436 = 436 /\
  exists evs root imports,
    resolve w_ok "linux" "amd64" ignore_B true false = (evs, Val (root, imports)) /\
    (("/work/caps.lock" = filepath_Join w_ok root "caps.summary" /\
      "{}" = cmd_stdout (cmd_Run w_ok "capslock"
               (capslock_args "linux" "amd64" imports "verbose" "/work/caps.lock"
                  "" false) None)) \/
     ("/work/caps.lock" = filepath_Join w_ok root "caps.lock" /\
      "{}" = cmd_stdout (cmd_Run w_ok "capslock"
               (capslock_args "linux" "amd64" imports "json" "/work/caps.lock"
                  "" false) None))).
Proof.
  apply (writes_only_baseline w_ok "linux" "amd64" ignore_B true false true
           false false false "" "/work/caps.lock" "{}" 436).
  assert (Htr : fst (analyse w_ok "linux" "amd64" ignore_B true false true
                       false false false "")
                = evs_ok ++
                  [Exec "capslock"
                     (capslock_args "linux" "amd64" ["A"] "verbose"
                        "/work/caps.summary" "" false) None;
                   WriteFileCall "/work/caps.summary" "summary" 436;
                   Exec "capslock"
                     (capslock_args "linux" "amd64" ["A"] "json"
                        "/work/caps.lock" "" false) None;
                   WriteFileCall "/work/caps.lock" "{}" 436]).
  { vm_compute. reflexivity. }
  rewrite Htr. apply elem_of_app. right.
  do 3 apply list_elem_of_further. apply list_elem_of_here.
Defined.

(** ** Failures on the way to the import paths *)

(** X15.  When the packages cannot be loaded, or the loader reports errors
    in them, the run ends with status 1 right there: the loader's error is
    written after [load: ], respectively the package errors are written one
    per line, and no classification query and no analyzer is run. *)
Theorem load_failure (w : World) (goos goarch : string) (ignore : list Regexp)
    (module list_ lock stdlib verbose noBuiltin : bool) (custom : string)
    (e0 : list event) (root : string) :
  analyse_root w module = (e0, Val root) ->
  let cfg := {| cfg_Tests := false;
                cfg_Mode := Z.lor (packages_NeedImports w) (packages_NeedModule w);
                cfg_Env := os_Environ w ++ ["GOOS=" +:+ goos; "GOARCH=" +:+ goarch] |} in
  let pattern := filepath_Join w root "..." in
  let run := analyse w goos goarch ignore module list_ lock stdlib verbose
               noBuiltin custom in
  (forall e, packages_Load w cfg pattern = inr e ->
     run = (e0 ++ [LoadCall cfg pattern; Stderr ("load: " +:+ e +:+ nl)], Exit 1)) /\
  (forall pkgs, packages_Load w cfg pattern = inl pkgs ->
     packages_PrintErrors w pkgs <> [] ->
     run = (e0 ++ LoadCall cfg pattern ::
                  map (fun e => Stderr (e +:+ nl)) (packages_PrintErrors w pkgs),
            Exit 1)).
Proof.
  intros Hr cfg pattern run. subst run. unfold analyse, resolve.
  rewrite Hr. cbn [bind].
  assert (Hload : analyse_load w goos goarch root =
                  (emit (LoadCall cfg pattern) ;;;
                   match packages_Load w cfg pattern with
                   | inr e => emit (Stderr ("load: " +:+ e +:+ nl)) ;;; exit internalError
                   | inl pkgs =>
                       n <- PrintErrors w pkgs ;;
                       if negb (n =? 0) then exit internalError else ret pkgs
                   end)) by reflexivity.
  rewrite Hload. clear Hload. cbn [emit bind].
  split.
  - intros e ->. cbn [bind emit exit app]. done.
  - intros pkgs -> Hne. unfold PrintErrors.
    assert (Hp : forall l,
              (fix go (l : list string) : M unit :=
                 match l with
                 | [] => ret tt
                 | e :: l' => Eprintln e;;; go l'
                 end) l = (map (fun e => Stderr (e +:+ nl)) l, Val tt)).
    { induction l as [| e l IH]; [done |]. rewrite IH. reflexivity. }
    rewrite Hp. cbn [bind ret].
    destruct (packages_PrintErrors w pkgs) as [| e l]; [done |].
    cbn [length]. rewrite Nat2Z.inj_succ.
    destruct (Z.eqb_spec (Z.succ (Z.of_nat (length l))) 0) as [H0 | H0]; [lia |].
    cbn [negb exit app]. by rewrite !app_nil_r.
Qed.

Lemma load_failure_witness :
  analyse w_noload "linux" "amd64" [] true false false false false false ""
  = ([Exec "go" ["env"; "GOMOD"] None] ++
     [LoadCall {| cfg_Tests := false; cfg_Mode := 8200; cfg_Env := env_ok |}
               "/work/...";
      Stderr ("load: " +:+ "cannot find main module" +:+ nl)],
     Exit 1).
Proof.
  apply (proj1 (load_failure w_noload "linux" "amd64" [] true false false false
                  false false "" [Exec "go" ["env"; "GOMOD"] None] "/work"
                  eq_refl)).
  reflexivity.
Defined.

(** X16.  With [-mod=false], when the module-root query has succeeded but
    the working directory cannot be determined, the run ends with status 1
    after writing that error; no package is loaded. *)
Theorem getwd_failure (w : World) (goos goarch : string) (ignore : list Regexp)
    (list_ lock stdlib verbose noBuiltin : bool) (custom : string)
    (mroot : string) (valid : bool) (e : error) :
  snd (moduleRoot w) = Val (mroot, valid, None) ->
  os_Getwd w = inr e ->
  analyse w goos goarch ignore false list_ lock stdlib verbose noBuiltin custom
  = ([Exec "go" ["env"; "GOMOD"] None; GetwdCall; Stderr (e +:+ nl)], Exit 1).
Proof.
  intros Hm Hwd. apply analyse_root_exit.
  unfold analyse_root. rewrite (moduleRoot_eq _ _ Hm). cbn [bind negb emit].
  by rewrite Hwd.
Qed.

Lemma getwd_failure_witness :
  analyse w_nowd "linux" "amd64" [] false false false false false false ""
  = ([Exec "go" ["env"; "GOMOD"] None; GetwdCall;
      Stderr ("getwd: no such file or directory" +:+ nl)],
     Exit 1).
Proof.
  apply (getwd_failure w_nowd "linux" "amd64" [] false false false false false ""
           "/work" true); reflexivity.
Defined.

(** X17.  In comparing mode, when the analyzer cannot be run or ends with a
    non-zero status, the run ends with status 1: the error, prefixed with
    [capslock: ] and followed by what the analyzer wrote on standard error,
    goes to standard error, and nothing is written to standard output. *)
Theorem compare_analyzer_failure (w : World) (goos goarch : string)
    (ignore : list Regexp) (module stdlib verbose noBuiltin : bool)
    (custom : string) (evs : list event) (root : string)
    (imports : list string) (err : error) :
  resolve w goos goarch ignore module stdlib = (evs, Val (root, imports)) ->
  let args := capslock_args goos goarch imports "compare"
                (filepath_Join w root "caps.lock") custom noBuiltin in
  let r := cmd_Run w "capslock" args None in
  cmd_err r = Some err ->
  let run := analyse w goos goarch ignore module false false stdlib verbose
               noBuiltin custom in
  run = (evs ++ [Exec "capslock" args None;
                 Stderr (("capslock: " +:+ err +:+ ": " +:+ cmd_stderr r) +:+ nl)],
         Exit 1) /\
  stdout_of (fst run) = "".
Proof.
  intros Hres args r Herr run.
  assert (Hrun : run = (evs ++ [Exec "capslock" args None;
                 Stderr (("capslock: " +:+ err +:+ ": " +:+ cmd_stderr r) +:+ nl)],
         Exit 1)).
  { subst run. rewrite (analyse_resolved _ _ _ _ _ _ _ _ _ _ _ _ _ _ Hres).
    unfold analyse_dispatch. rewrite capslock_compare. cbv zeta.
    fold args. fold r. rewrite Herr. reflexivity. }
  split; [done |]. rewrite Hrun. cbn [fst].
  rewrite stdout_of_app. cbn [stdout_of].
  rewrite (resolution_events_stdout evs); [done |].
  pose proof (resolve_events w goos goarch ignore module stdlib) as H.
  by rewrite Hres in H.
Qed.

Lemma resolve_w_noanalyzer :
  resolve w_noanalyzer "linux" "amd64" ignore_B true false
  = (evs_ok, Val ("/work", ["A"])).
Proof. vm_compute. reflexivity. Qed.

Lemma compare_analyzer_failure_witness :
  let run := analyse w_noanalyzer "linux" "amd64" ignore_B true false false
               false false false "" in
  run = (evs_ok ++
         [Exec "capslock"
            (capslock_args "linux" "amd64" ["A"] "compare" "/work/caps.lock"
               "" false) None;
          Stderr (("capslock: " +:+ "executable file not found in $PATH"
                   +:+ ": " +:+ "") +:+ nl)],
         Exit 1) /\
  stdout_of (fst run) = "".
Proof.
  apply (compare_analyzer_failure w_noanalyzer "linux" "amd64" ignore_B true
           false false false "" evs_ok "/work" ["A"]
           "executable file not found in $PATH" resolve_w_noanalyzer).
  reflexivity.
Defined.

(** ** The flag value [set] *)




(** ** [Main] *)

(** X19.  When [-disable_builtin] is used correctly and some [-i] pattern
    does not compile, the program writes the compilation error of one of the
    patterns to standard error and ends with status 2, before anything is
    resolved. *)
Theorem bad_pattern_is_invocation_error (w : World) (fl : Flags) :
  range_ok w ->
  f_noBuiltin fl && String.eqb (f_custom fl) "" = false ->
  (exists p e, p ∈ dom (f_ignore fl) /\ regexp_Compile w p = inr e) ->
  exists p e, p ∈ dom (f_ignore fl) /\ regexp_Compile w p = inr e /\
              main w fl = ([Stderr (e +:+ nl)], Exit 2).
Proof.
  intros Hw Hnb (p & e & Hp & Hc).
  rewrite main_eq_Main. unfold Main. rewrite Hnb.
  destruct (set_regexps_outcome w (f_ignore fl))
    as [[Hall Heq] | (p' & e' & Hp' & Hc' & Heq)]; rewrite Heq.
  - exfalso. apply (range_keys_elem w (dom (f_ignore fl)) p Hw) in Hp.
    destruct (proj1 (Forall_forall _ _) Hall p Hp) as [r Hr].
    unfold compiled in Hr. by rewrite Hc in Hr.
  - apply (range_keys_elem w (dom (f_ignore fl)) p' Hw) in Hp'.
    exists p', e'. done.
Qed.

Lemma bad_pattern_is_invocation_error_witness :
  exists p e, p ∈ dom (f_ignore (with_ignore default_flags ["("])) /\
              regexp_Compile w_ok p = inr e /\
              main w_ok (with_ignore default_flags ["("]) = ([Stderr (e +:+ nl)], Exit 2).
Proof.
  apply bad_pattern_is_invocation_error.
  - apply range_ok_id.
  - reflexivity.
  - exists "(", "missing closing )". split; [| reflexivity].
    apply elem_of_dom. exists true. vm_compute. reflexivity.
Defined.

(** X20.  Leaving out [-goos] or [-goarch] is the same as giving the host's
    value: the run equals the run with the effective target spelled out. *)
Theorem default_target (w : World) (fl : Flags) :
  main w fl = main w (with_target fl (effective_goos w fl) (effective_goarch w fl)).
Proof.
  rewrite !main_eq_Main. unfold Main, with_target, effective_goos, effective_goarch.
  cbn [f_noBuiltin f_custom f_ignore f_goos f_goarch f_module f_list f_lock
       f_stdlib f_verbose].
  destruct (set_regexps w (f_ignore fl)) as [ignorer err].
  destruct (f_noBuiltin fl && _); [done |]. destruct err; [done |].
  destruct (String.eqb_spec (f_goos fl) "") as [Hg | Hg];
    destruct (String.eqb_spec (f_goarch fl) "") as [Ha | Ha].
  - destruct (String.eqb (runtime_GOOS w) ""), (String.eqb (runtime_GOARCH w) "") eqn:E2;
      try done.
  - apply String.eqb_neq in Ha. rewrite Ha.
    by destruct (String.eqb (runtime_GOOS w) "").
  - apply String.eqb_neq in Hg. rewrite Hg.
    by destruct (String.eqb (runtime_GOARCH w) "").
  - apply String.eqb_neq in Hg, Ha. by rewrite Hg, Ha.
Qed.

(** ** Imports from the module itself *)



